(** * Nigori client: key derivation, authenticated envelope, blind index,
      authentication challenge.

    A shallow embedding of [src/client/nigori-client.py].  Python 2 byte
    strings are lists of characters, Python exceptions are the [Raise]
    outcome of a small state-and-exception monad, and everything the client
    obtains from its surroundings (entropy, the clock, the HTTP server,
    standard output) is a field of an explicit [World], which also records
    the calls made into the cryptographic libraries, in order.  The
    third-party libraries the client calls (PyCrypto, base64, urllib,
    simplejson) are the operations of the class [Libs], together with the
    documented facts about them that the client relies on; the helpers of
    the [nigori] module, which is not among the sources, follow the
    specification. *)

From Stdlib Require Import ZArith QArith_base List Ascii String Lia.
From stdpp Require Import base list strings gmap pretty.

Local Open Scope Z_scope.
Local Open Scope list_scope.

(** ** Python values *)

(** A Python 2 [str]: a sequence of 8-bit characters. *)
Abbreviation bytes := (list ascii).

Definition str (s : string) : bytes := list_ascii_of_string s.

Definition len (s : bytes) : Z := Z.of_nat (length s).

(** [ord(c)] *)
Definition ord (c : ascii) : Z := Z.of_N (N_of_ascii c).

(** [range(n)] *)
Definition range (n : Z) : list Z := map Z.of_nat (seq 0 (Z.to_nat n)).

(** [range(start, stop, -1)] *)
Definition range_down (start stop : Z) : list Z :=
  map (λ k, start - Z.of_nat k) (seq 0 (Z.to_nat (start - stop))).

(** [s[lo:hi]] for indices [0 <= lo], [0 <= hi]; an index beyond the end is
    clipped to the end, and an empty or inverted interval gives [""]. *)
Definition slice (s : bytes) (lo hi : Z) : bytes :=
  take (Z.to_nat (hi - lo)) (drop (Z.to_nat lo) s).

(** [s[lo:]] for [0 <= lo]. *)
Definition slice_from (s : bytes) (lo : Z) : bytes := drop (Z.to_nat lo) s.

(** [s[:stop]] for any integer [stop]: a negative [stop] counts from the
    end (clipped at the start), a non-negative one from the start. *)
Definition slice_to (s : bytes) (stop : Z) : bytes :=
  let stop' := if stop <? 0 then Z.max (stop + len s) 0 else stop in
  take (Z.to_nat stop') s.

(** The exclusive or of two characters, bit by bit. *)
Definition xor_ascii (a b : ascii) : ascii :=
  let '(Ascii a0 a1 a2 a3 a4 a5 a6 a7) := a in
  let '(Ascii b0 b1 b2 b3 b4 b5 b6 b7) := b in
  Ascii (xorb a0 b0) (xorb a1 b1) (xorb a2 b2) (xorb a3 b3)
        (xorb a4 b4) (xorb a5 b5) (xorb a6 b6) (xorb a7 b7).

(** The exclusive or of two strings, character by character (as long as
    the shorter). *)
Definition strxor (x y : bytes) : bytes := zip_with xor_ascii x y.

(** ** Exceptions and the world *)

Inductive exn : Type :=
  | ValueError (msg : string)
  | IndexError (msg : string)
  | TypeError (msg : string)
  | OverflowError (msg : string)
  | LookupError (msg : bytes).

(** The three failures of [decrypt], under the names the specification
    gives them; in the source all three are [ValueError]s, told apart by
    their message. *)
Definition FormatError : exn := ValueError "value too short".
Definition AuthenticationError : exn := ValueError "mac doesn't match".
Definition PaddingError : exn := ValueError "padding error".

Inductive outcome (A : Type) : Type :=
  | Ok (a : A)
  | Raise (e : exn).
Arguments Ok {A} a.
Arguments Raise {A} e.

(** A call into a cryptographic library, as recorded in the world. *)
Inductive Call : Type :=
  | CallSHA256 (msg : bytes)
  | CallHMAC (key msg : bytes)
  | CallAESnew (key iv : bytes)
  | CallAESencrypt (key iv data : bytes)
  | CallAESdecrypt (key iv data : bytes).

Record Request : Type := mkRequest {
  req_method : bytes;
  req_url : bytes;
  req_body : option bytes;
  req_headers : gmap string bytes
}.

Record Response : Type := mkResponse {
  status : Z;
  reason : bytes;
  body : bytes
}.

Record World : Type := mkWorld {
  (** the bytes [randpool.RandomPool] hands out *)
  entropy : nat → ascii;
  entropy_pos : nat;
  (** the bytes of [os.urandom], behind [random.SystemRandom] *)
  urandom : nat → ascii;
  urandom_pos : nat;
  (** [time.time()] *)
  clock : Q;
  (** the calls made into the cryptographic libraries, oldest first *)
  calls : list Call;
  (** the lines printed *)
  stdout : list bytes;
  (** the server: its answer to a request, given the earlier requests *)
  server : list Request → Request → Response;
  requests : list Request
}.

Definition M (A : Type) : Type := World → World * outcome A.

#[global] Instance M_ret : MRet M := λ A a w, (w, Ok a).

#[global] Instance M_bind : MBind M := λ A B k m w,
  match m w with
  | (w', Ok a) => k a w'
  | (w', Raise e) => (w', Raise e)
  end.

Definition raise {A} (e : exn) : M A := λ w, (w, Raise e).

(** [for x in xs: body(x)] *)
Fixpoint for_each {A} (xs : list A) (body : A → M unit) : M unit :=
  match xs with
  | [] => mret tt
  | x :: xs' => body x;; for_each xs' body
  end.

(** [for x in xs: acc = body(acc, x)] *)
Fixpoint for_fold {A S} (xs : list A) (acc : S) (body : S → A → M S) : M S :=
  match xs with
  | [] => mret acc
  | x :: xs' => acc' ← body acc x; for_fold xs' acc' body
  end.

(** The world after further library calls, entropy draws, printed lines and
    requests. *)
Definition log_calls (cs : list Call) (w : World) : World :=
  mkWorld (entropy w) (entropy_pos w) (urandom w) (urandom_pos w)
    (clock w) (calls w ++ cs) (stdout w) (server w) (requests w).

Definition use_entropy (n : nat) (w : World) : World :=
  mkWorld (entropy w) (entropy_pos w + n) (urandom w) (urandom_pos w)
    (clock w) (calls w) (stdout w) (server w) (requests w).

Definition use_urandom (n : nat) (w : World) : World :=
  mkWorld (entropy w) (entropy_pos w) (urandom w) (urandom_pos w + n)
    (clock w) (calls w) (stdout w) (server w) (requests w).

Definition emit (lines : list bytes) (w : World) : World :=
  mkWorld (entropy w) (entropy_pos w) (urandom w) (urandom_pos w)
    (clock w) (calls w) (stdout w ++ lines) (server w) (requests w).

Definition send (rq : Request) (w : World) : World :=
  mkWorld (entropy w) (entropy_pos w) (urandom w) (urandom_pos w)
    (clock w) (calls w) (stdout w) (server w) (requests w ++ [rq]).

Definition record_call (c : Call) : M unit := λ w, (log_calls [c] w, Ok tt).

(** [s[i]] for any integer [i]. *)
Definition getitem (s : bytes) (i : Z) : M ascii :=
  let j := if i <? 0 then i + len s else i in
  if (0 <=? j) && (j <? len s)
  then mret (nth (Z.to_nat j) s zero)
  else raise (IndexError "string index out of range").

(** ['%c' % n] *)
Definition fmt_c (n : Z) : M ascii :=
  if (0 <=? n) && (n <? 256)
  then mret (ascii_of_N (Z.to_N n))
  else raise (OverflowError "%c requires an unsigned byte").

(** ['%d' % n] *)
Definition fmt_d (n : Z) : bytes := str (pretty n).

(** [int(x)] of a float: truncation towards zero. *)
Definition int_of_float (x : Q) : Z := Z.quot (Qnum x) (Z.pos (Qden x)).

(** The big-endian integer a byte string spells ([long(hexlify(s), 16)]). *)
Definition int_of_bytes (s : bytes) : Z :=
  foldl (λ acc c, acc * 256 + ord c) 0 s.

(** [time.time()] *)
Definition time_time : M Q := λ w, (w, Ok (clock w)).

(** [randpool.RandomPool().get_bytes(n)]: the next [n] bytes of entropy. *)
Definition RandomPool_get_bytes (n : nat) : M bytes :=
  λ w, (use_entropy n w, Ok (map (entropy w) (seq (entropy_pos w) n))).

(** [os.urandom(n)] *)
Definition os_urandom (n : nat) : M bytes :=
  λ w, (use_urandom n w, Ok (map (urandom w) (seq (urandom_pos w) n))).

(** [random.SystemRandom().getrandbits(k)], as in the standard library:
    [(k + 7) // 8] bytes of [os.urandom], read as a big-endian integer and
    shifted right to keep [k] bits. *)
Definition SystemRandom_getrandbits (k : Z) : M Z :=
  if k <=? 0 then raise (ValueError "number of bits must be greater than zero")
  else
    let nbytes := (k + 7) / 8 in
    raw ← os_urandom (Z.to_nat nbytes);
    mret (Z.shiftr (int_of_bytes raw) (nbytes * 8 - k)).

(** [print line] *)
Definition print (line : bytes) : M unit := λ w, (emit [line] w, Ok tt).

(** [conn = connect(); conn.request(...); conn.getresponse()] *)
Definition http_request (method url : bytes) (body : option bytes)
    (headers : gmap string bytes) : M Response :=
  λ w, let rq := mkRequest method url body headers in
       (send rq w, Ok (server w (requests w) rq)).

(** A record of the server's JSON answer to [list-resource]. *)
Record JsonRecord : Type := mkJsonRecord {
  value : bytes;
  version : Z;
  creationTime : Q
}.

(** ** The libraries *)

(** [AES.new] accepts keys of 16, 24 or 32 bytes. *)
Definition aes_key_ok (key : bytes) : bool :=
  bool_decide (length key = 16%nat) || bool_decide (length key = 24%nat)
  || bool_decide (length key = 32%nat).

Class Libs : Type := {
  (** [Crypto.Hash.SHA256.new(m).digest()] *)
  sha256 : bytes → bytes;
  (** [Crypto.Hash.HMAC.new(k, m).digest()], with HMAC's default hash, MD5 *)
  hmac_md5 : bytes → bytes → bytes;
  (** the AES permutation of one 16-byte block under a key, and its inverse *)
  aes_block_encrypt : bytes → bytes → bytes;
  aes_block_decrypt : bytes → bytes → bytes;
  (** [base64.urlsafe_b64encode], [base64.urlsafe_b64decode] *)
  urlsafe_b64encode : bytes → bytes;
  urlsafe_b64decode : bytes → option bytes;
  (** [urllib.urlencode] *)
  urlencode : gmap string bytes → bytes;
  (** [simplejson.loads], on the answer to [list-resource] *)
  json_loads : bytes → option (list JsonRecord);
  (** ['%f' % x] *)
  fmt_f : Q → bytes;
  (** the width in bytes of [nigori.int2bin] *)
  int2bin_width : nat;
  (** [nigori.SchnorrSigner(key).public()] and [.sign(message)] *)
  schnorr_public : bytes → bytes;
  schnorr_sign : bytes → bytes → World → World * (bytes * bytes);

  (** what the client relies on: the sizes of the digests, AES as a
      permutation of 16-byte blocks, decoding as the inverse of encoding *)
  sha256_size : ∀ m, length (sha256 m) = 32%nat;
  hmac_md5_size : ∀ k m, length (hmac_md5 k m) = 16%nat;
  aes_block_encrypt_size : ∀ k b,
    aes_key_ok k = true → length b = 16%nat →
    length (aes_block_encrypt k b) = 16%nat;
  aes_block_decrypt_size : ∀ k b,
    aes_key_ok k = true → length b = 16%nat →
    length (aes_block_decrypt k b) = 16%nat;
  aes_block_decrypt_encrypt : ∀ k b,
    aes_key_ok k = true → length b = 16%nat →
    aes_block_decrypt k (aes_block_encrypt k b) = b;
  urlsafe_b64decode_encode : ∀ x,
    urlsafe_b64decode (urlsafe_b64encode x) = Some x
}.

(** ** The client *)

Section Client.
Context {L : Libs}.

Definition b64enc (s : bytes) : bytes := urlsafe_b64encode s.

(** [urlsafe_b64decode] turns the decoder's error into a [TypeError]. *)
Definition b64dec (s : bytes) : M bytes :=
  match urlsafe_b64decode s with
  | Some d => mret d
  | None => raise (TypeError "Incorrect padding")
  end.

Definition SHA256_new_digest (msg : bytes) : M bytes :=
  record_call (CallSHA256 msg);; mret (sha256 msg).

(** An [HMAC] object; [digest] is the MAC of the message it was made with. *)
Record HMAC : Type := mkHMAC { hmac_key : bytes; hmac_msg : bytes }.

Definition HMAC_new (key msg : bytes) : M HMAC :=
  record_call (CallHMAC key msg);; mret (mkHMAC key msg).

Definition digest (h : HMAC) : bytes := hmac_md5 (hmac_key h) (hmac_msg h).

(** An AES cipher object in CBC mode: the key and the chaining value. *)
Record Crypter : Type := mkCrypter { crypter_key : bytes; crypter_iv : bytes }.

(** [AES.new(key, AES.MODE_CBC, iv)], as in PyCrypto 2.0: the IV is 16
    bytes (an empty IV stands for sixteen zero bytes), the key 16, 24 or 32
    bytes; the IV is looked at first. *)
Definition AES_new_CBC (key iv : bytes) : M Crypter :=
  record_call (CallAESnew key iv);;
  if negb (bool_decide (length iv = 16%nat) || bool_decide (length iv = 0%nat))
  then raise (ValueError "IV must be 16 bytes long")
  else if negb (aes_key_ok key)
  then raise (ValueError "AES key must be either 16, 24, or 32 bytes long")
  else mret (mkCrypter key (if bool_decide (length iv = 0%nat)
                            then replicate 16 zero else iv)).

(** Cipher block chaining over [n] blocks: each plaintext block is xored
    with the previous ciphertext block (the IV for the first) and then
    encrypted. *)
Fixpoint cbc_encrypt (n : nat) (key prev data : bytes) : bytes :=
  match n with
  | O => []
  | S n' =>
      let block := aes_block_encrypt key (strxor (take 16 data) prev) in
      block ++ cbc_encrypt n' key block (drop 16 data)
  end.

(** Each ciphertext block is decrypted and then xored with the previous
    ciphertext block (the IV for the first). *)
Fixpoint cbc_decrypt (n : nat) (key prev data : bytes) : bytes :=
  match n with
  | O => []
  | S n' =>
      let block := take 16 data in
      strxor (aes_block_decrypt key block) prev
      ++ cbc_decrypt n' key block (drop 16 data)
  end.

(** [crypter.encrypt(data)] *)
Definition Crypter_encrypt (c : Crypter) (data : bytes) : M bytes :=
  record_call (CallAESencrypt (crypter_key c) (crypter_iv c) data);;
  if bool_decide (len data `mod` 16 = 0)
  then mret (cbc_encrypt (length data / 16) (crypter_key c) (crypter_iv c) data)
  else raise (ValueError "Input strings must be a multiple of 16 in length").

(** [crypter.decrypt(data)] *)
Definition Crypter_decrypt (c : Crypter) (data : bytes) : M bytes :=
  record_call (CallAESdecrypt (crypter_key c) (crypter_iv c) data);;
  if bool_decide (len data `mod` 16 = 0)
  then mret (cbc_decrypt (length data / 16) (crypter_key c) (crypter_iv c) data)
  else raise (ValueError "Input strings must be a multiple of 16 in length").

(** Modelled from the spec: [nigori.SchnorrSigner], missing from the
    sources; the specification gives it as an opaque signing capability
    bound to a key, with [publicKey()] and [sign(message) -> (e, s)]. *)
Record SchnorrSigner : Type := mkSchnorrSigner { signer_key : bytes }.

Definition public (sg : SchnorrSigner) : bytes := schnorr_public (signer_key sg).

Definition sign (sg : SchnorrSigner) (message : bytes) : M (bytes * bytes) :=
  λ w, let '(w', es) := schnorr_sign (signer_key sg) message w in (w', Ok es).

(** Modelled from the spec: [nigori.int2bin], missing from the sources; the
    specification gives it as a fixed-width big-endian encoding of a small
    integer.  [int2bin_be n i] is the [n] low-order base-256 digits of [i],
    most significant first. *)
Fixpoint int2bin_be (n : nat) (i : Z) : bytes :=
  match n with
  | O => []
  | S n' => int2bin_be n' (i / 256) ++ [ascii_of_N (Z.to_N (i `mod` 256))]
  end.

Definition int2bin (i : Z) : bytes := int2bin_be int2bin_width i.

(** Modelled from the spec: [nigori.concat], missing from the sources; the
    specification writes [concat([a, b])] as [a ‖ b], the strings one after
    the other. *)
Definition concat (strings : list bytes) : bytes := mjoin strings.

(** A [KeyDeriver] object: its three attributes. *)
Record KeyDeriver : Type := mkKeyDeriver {
  crypt : bytes;
  mac : bytes;
  authenticate : bytes
}.

(** [KeyDeriver.__init__] *)
Definition KeyDeriver_init (password : bytes) : M KeyDeriver :=
  crypt ← SHA256_new_digest password;
  mac ← SHA256_new_digest crypt;
  authenticate ← SHA256_new_digest mac;
  mret (mkKeyDeriver crypt mac authenticate).

Definition encryptWithIV (self : KeyDeriver) (plain iv : bytes) : M bytes :=
  crypter ← AES_new_CBC (crypt self) iv;
  let pad := 16 - len plain `mod` 16 in
  c ← fmt_c pad;
  plain ← for_fold (range pad) plain (λ plain i, mret (plain ++ [c]));
  crypted ← Crypter_encrypt crypter plain;
  hmac ← HMAC_new (mac self) crypted;
  let crypted := crypted ++ digest hmac in
  mret crypted.

Definition encrypt (self : KeyDeriver) (plain : bytes) : M bytes :=
  iv ← RandomPool_get_bytes 16;
  sealed ← encryptWithIV self plain iv;
  mret (b64enc (iv ++ sealed)).

Definition permute (self : KeyDeriver) (plain : bytes) : M bytes :=
  let iv := [] in
  iv ← for_fold (range 16) iv (λ iv i, z ← fmt_c 0; mret (iv ++ [z]));
  sealed ← encryptWithIV self plain iv;
  mret (b64enc sealed).

Definition decrypt (self : KeyDeriver) (crypted : bytes) : M bytes :=
  crypted ← b64dec crypted;
  let l := len crypted in
  if l <? 32 then raise (ValueError "value too short") else
  let mac' := slice_from crypted (l - 16) in
  let iv := slice crypted 0 16 in
  let crypted := slice crypted 16 (l - 16) in
  hmac ← HMAC_new (mac self) crypted;
  if bool_decide (mac' ≠ digest hmac)
  then raise (ValueError "mac doesn't match") else
  crypter ← AES_new_CBC (crypt self) iv;
  plain ← Crypter_decrypt crypter crypted;
  c ← getitem plain (-1);
  for_each (range_down (-1) (- ord c)) (λ i,
    x ← getitem plain i;
    if bool_decide (x ≠ c) then raise (ValueError "padding error")
    else mret tt);;
  let plain := slice_to plain (- ord c) in
  mret plain.

Definition schnorr (self : KeyDeriver) : SchnorrSigner :=
  mkSchnorrSigner (authenticate self).

Definition makeAuthParams (user password : bytes) : M (gmap string bytes) :=
  now ← time_time;
  r ← SystemRandom_getrandbits 20;
  let t := fmt_d (int_of_float now) ++ str ":" ++ fmt_d r in
  keys ← KeyDeriver_init password;
  let schnorr := schnorr keys in
  es ← sign schnorr t;
  let params : gmap string bytes :=
    {[ "user" := user; "t" := t;
       "e" := b64enc es.1; "s" := b64enc es.2 ]} in
  mret params.

(** [simplejson.loads]; a malformed document is a [ValueError]. *)
Definition simplejson_loads (json : bytes) : M (list JsonRecord) :=
  match json_loads json with
  | Some records => mret records
  | None => raise (ValueError "No JSON object could be decoded")
  end.

Definition getList (user password : bytes) (type : Z) (name : bytes) : M unit :=
  params ← makeAuthParams user password;
  keys ← KeyDeriver_init password;
  key ← permute keys (concat [int2bin type; name]);
  let params := <["name" := key]> params in
  response ← http_request (str "GET")
               (str "/list-resource?" ++ urlencode params) None ∅;
  if bool_decide (status response ≠ 200)
  then raise (LookupError (str "HTTP error: " ++ fmt_d (status response)
                             ++ str " " ++ reason response))
  else
  let json := body response in
  records ← simplejson_loads json;
  keys ← KeyDeriver_init password;
  for_each records (λ record,
    value ← decrypt keys (value record);
    print (fmt_d (version record) ++ str " at "
             ++ fmt_f (creationTime record) ++ str ": " ++ value)).

Definition add (user password : bytes) (type : Z) (name value : bytes)
    : M unit :=
  params ← makeAuthParams user password;
  keys ← KeyDeriver_init password;
  key ← permute keys (concat [int2bin type; name]);
  let params := <["name" := key]> params in
  sealed ← encrypt keys value;
  let params := <["value" := sealed]> params in
  let params := urlencode params in
  let headers : gmap string bytes :=
    {[ "Content-Type" := str "application/x-www-form-urlencoded";
       "Accept" := str "text/plain" ]} in
  response ← http_request (str "POST") (str "/add-resource")
               (Some params) headers;
  print (fmt_d (status response) ++ str " " ++ reason response);;
  print (body response).

End Client.

(** ** The commands *)

Section Commands.
Context {L : Libs}.

Definition register (user password : bytes) : M unit :=
  keys ← KeyDeriver_init password;
  let schnorr := schnorr keys in
  let public := b64enc (public schnorr) in
  let params :=
    urlencode ({[ "user" := user; "publicKey" := public ]}
                 : gmap string bytes) in
  let headers : gmap string bytes :=
    {[ "Content-Type" := str "application/x-www-form-urlencoded";
       "Accept" := str "text/plain" ]} in
  response ← http_request (str "POST") (str "/register")
               (Some params) headers;
  print (fmt_d (status response) ++ str " " ++ reason response);;
  print (body response).

Definition do_auth (params : gmap string bytes) : M unit :=
  let params := urlencode params in
  let headers : gmap string bytes :=
    {[ "Content-Type" := str "application/x-www-form-urlencoded" ]} in
  response ← http_request (str "POST") (str "/authenticate")
               (Some params) headers;
  print (fmt_d (status response) ++ str " " ++ reason response);;
  print (body response).

(** [authenticate] of the source; the name alone is taken, by the attribute
    of [KeyDeriver]. *)
Definition authenticate_user (user password : bytes) : M unit :=
  params ← makeAuthParams user password;
  do_auth params;;
  (* test replay attack *)
  print (str "Replaying: this should fail");;
  do_auth params.

Definition initSplit (user password : bytes) (splits : list bytes) : M unit :=
  add user password 2 (str "split servers") (concat splits).

(** [sys.argv[i]] *)
Definition argv_get (argv : list bytes) (i : nat) : M bytes :=
  match argv !! i with
  | Some a => mret a
  | None => raise (IndexError "list index out of range")
  end.

(** [main], run with [sys.argv = argv].  [python_int] is [int] on a string,
    with [None] for its [ValueError].  The globals [server] and [port] that
    [main] sets are read by [connect] alone: they name the peer whose
    answers are the world's [server]. *)
Definition main (python_int : bytes → option Z) (argv : list bytes)
    : M unit :=
  server ← argv_get argv 1;
  port_arg ← argv_get argv 2;
  port ← match python_int port_arg with
         | Some n => mret n
         | None => raise (ValueError "invalid literal for int() with base 10")
         end;
  action ← argv_get argv 3;
  if bool_decide (action = str "get") then
    a4 ← argv_get argv 4; a5 ← argv_get argv 5; a6 ← argv_get argv 6;
    getList a4 a5 1 a6
  else if bool_decide (action = str "add") then
    a4 ← argv_get argv 4; a5 ← argv_get argv 5; a6 ← argv_get argv 6;
    a7 ← argv_get argv 7;
    add a4 a5 1 a6 a7
  else if bool_decide (action = str "register") then
    a4 ← argv_get argv 4; a5 ← argv_get argv 5;
    register a4 a5
  else if bool_decide (action = str "authenticate") then
    a4 ← argv_get argv 4; a5 ← argv_get argv 5;
    authenticate_user a4 a5
  else if bool_decide (action = str "create-split") then
    a4 ← argv_get argv 4; a5 ← argv_get argv 5;
    initSplit a4 a5 (drop 6 argv)
  else
    raise (ValueError ("Unrecognised action: " +:+ string_of_list_ascii action)).

End Commands.

(** ** What the operations compute

    Names for the values and the worlds the operations end in, and for the
    parts of [decrypt]. *)

Section Meaning.
Context {L : Libs}.

(** The keys a password derives. *)
Definition keys_of (password : bytes) : KeyDeriver :=
  mkKeyDeriver (sha256 password) (sha256 (sha256 password))
    (sha256 (sha256 (sha256 password))).

(** The keys are derived with three hashes, each of the one before. *)
Definition KeyDeriver_init_calls (password : bytes) : list Call :=
  [CallSHA256 password; CallSHA256 (sha256 password);
   CallSHA256 (sha256 (sha256 password))].

(** The padding [encryptWithIV] adds, and what it encrypts and returns. *)
Definition pad_of (plain : bytes) : Z := 16 - len plain `mod` 16.

Definition padded (plain : bytes) : bytes :=
  plain ++ replicate (Z.to_nat (pad_of plain))
             (ascii_of_N (Z.to_N (pad_of plain))).

Definition ciphertext (self : KeyDeriver) (iv plain : bytes) : bytes :=
  cbc_encrypt (length (padded plain) / 16) (crypt self) iv (padded plain).

Definition sealed (self : KeyDeriver) (iv plain : bytes) : bytes :=
  ciphertext self iv plain ++ hmac_md5 (mac self) (ciphertext self iv plain).

(** The calls [encryptWithIV] makes, in order. *)
Definition encryptWithIV_calls (self : KeyDeriver) (iv plain : bytes)
    : list Call :=
  [CallAESnew (crypt self) iv;
   CallAESencrypt (crypt self) iv (padded plain);
   CallHMAC (mac self) (ciphertext self iv plain)].

(** The IV [encrypt] draws in a world. *)
Definition drawn_iv (w : World) : bytes :=
  map (entropy w) (seq (entropy_pos w) 16).

(** The IV of [permute]: sixteen zero characters. *)
Definition zero_iv : bytes := replicate 16 zero.

(** The three parts of a decoded envelope. *)
Definition iv_part (d : bytes) : bytes := slice d 0 16.
Definition ciphertext_part (d : bytes) : bytes := slice d 16 (len d - 16).
Definition mac_part (d : bytes) : bytes := slice_from d (len d - 16).

(** The character [k] places from the end of a string ([s[-k]]). *)
Definition from_end (s : bytes) (k : Z) : ascii :=
  nth (Z.to_nat (len s - k)) s zero.

(** One turn of the padding loop of [decrypt]. *)
Definition padding_turn (plain : bytes) (c : ascii) (i : Z) : M unit :=
  x ← getitem plain i;
  if bool_decide (x ≠ c) then raise (ValueError "padding error") else mret tt.

(** The end of [decrypt], from the read of the last character on. *)
Definition strip_padding (plain : bytes) : M bytes :=
  c ← getitem plain (-1);
  for_each (range_down (-1) (- ord c)) (padding_turn plain c);;
  let plain := slice_to plain (- ord c) in
  mret plain.

(** The second phase of [decrypt], entered once the MAC has been found
    right. *)
Definition decrypt_verified (self : KeyDeriver) (iv crypted : bytes)
    : M bytes :=
  crypter ← AES_new_CBC (crypt self) iv;
  plain ← Crypter_decrypt crypter crypted;
  strip_padding plain.

(** The calls of the second phase, in order. *)
Definition decrypt_verified_calls (self : KeyDeriver) (iv crypted : bytes)
    : list Call :=
  [CallAESnew (crypt self) iv; CallAESdecrypt (crypt self) iv crypted].

(** The calls of a [decrypt] that gets as far as the padding. *)
Definition decrypt_calls (self : KeyDeriver) (iv ct : bytes) : list Call :=
  [CallHMAC (mac self) ct; CallAESnew (crypt self) iv;
   CallAESdecrypt (crypt self) iv ct].

(** The envelope that carries the raw (already padded) plaintext [raw]:
    what [encrypt] builds once it has padded its argument. *)
Definition envelope_of_raw (self : KeyDeriver) (iv raw : bytes) : bytes :=
  let ct := cbc_encrypt (length raw / 16) (crypt self) iv raw in
  b64enc (iv ++ ct ++ hmac_md5 (mac self) ct).

(** The random part of a challenge made in a world: three bytes of
    [os.urandom], less their low four bits. *)
Definition challenge_nonce (w : World) : Z :=
  Z.shiftr (int_of_bytes (map (urandom w) (seq (urandom_pos w) 3))) 4.

Definition challenge_t (w : World) : bytes :=
  fmt_d (int_of_float (clock w)) ++ str ":" ++ fmt_d (challenge_nonce w).

(** The signer's answer to the challenge: the world it leaves and the
    pair [(e, s)]. *)
Definition challenge_signed (password : bytes) (w : World)
    : World * (bytes * bytes) :=
  schnorr_sign (authenticate (keys_of password)) (challenge_t w)
    (log_calls (KeyDeriver_init_calls password) (use_urandom 3 w)).

Definition challenge_params (user password : bytes) (w : World)
    : gmap string bytes :=
  {[ "user" := user; "t" := challenge_t w;
     "e" := b64enc (challenge_signed password w).2.1;
     "s" := b64enc (challenge_signed password w).2.2 ]}.

(** The lookup key of a resource: what [getList] and [add] send as its
    name. *)
Definition buildLookupKey (password : bytes) (type : Z) (name : bytes)
    : bytes :=
  b64enc (sealed (keys_of password) zero_iv (concat [int2bin type; name])).

(** The request [getList] sends. *)
Definition getList_request (user password : bytes) (type : Z) (name : bytes)
    (w : World) : Request :=
  mkRequest (str "GET")
    (str "/list-resource?"
     ++ urlencode (<["name" := buildLookupKey password type name]>
                     (challenge_params user password w)))
    None ∅.

(** The request [add] sends, given the sealed value. *)
Definition add_request (user password : bytes) (type : Z)
    (name sealed_value : bytes) (w : World) : Request :=
  mkRequest (str "POST") (str "/add-resource")
    (Some (urlencode (<["value" := sealed_value]>
                        (<["name" := buildLookupKey password type name]>
                           (challenge_params user password w)))))
    {[ "Content-Type" := str "application/x-www-form-urlencoded";
       "Accept" := str "text/plain" ]}.

(** A computation that sends nothing. *)
Definition sends_nothing {A} (m : M A) : Prop :=
  ∀ w, requests (m w).1 = requests w.

(** The line printed for a response: its status and its reason. *)
Definition status_line (r : Response) : bytes :=
  fmt_d (status r) ++ str " " ++ reason r.

(** The request [do_auth] sends. *)
Definition auth_request (params : gmap string bytes) : Request :=
  mkRequest (str "POST") (str "/authenticate") (Some (urlencode params))
    {[ "Content-Type" := str "application/x-www-form-urlencoded" ]}.

(** The request [register] sends. *)
Definition register_request (user password : bytes) : Request :=
  mkRequest (str "POST") (str "/register")
    (Some (urlencode
             ({[ "user" := user;
                 "publicKey" :=
                   b64enc (schnorr_public (authenticate (keys_of password))) ]}
                : gmap string bytes)))
    {[ "Content-Type" := str "application/x-www-form-urlencoded";
       "Accept" := str "text/plain" ]}.

(** The line [getList] prints for a record whose value decrypts to [v]. *)
Definition listing_line (r : JsonRecord) (v : bytes) : bytes :=
  fmt_d (version r) ++ str " at " ++ fmt_f (creationTime r) ++ str ": " ++ v.

(** What [getList] does with the server's answer. *)
Definition getList_listing (password : bytes) (response : Response) : M unit :=
  if bool_decide (status response ≠ 200)
  then raise (LookupError (str "HTTP error: " ++ fmt_d (status response)
                             ++ str " " ++ reason response))
  else
  let json := body response in
  records ← simplejson_loads json;
  keys ← KeyDeriver_init password;
  for_each records (λ record,
    value ← decrypt keys (value record);
    print (fmt_d (version record) ++ str " at "
             ++ fmt_f (creationTime record) ++ str ": " ++ value)).

(** The calls [getList] and [add] make to build the lookup key. *)
Definition lookup_calls (password : bytes) (type : Z) (name : bytes)
    : list Call :=
  KeyDeriver_init_calls password
  ++ encryptWithIV_calls (keys_of password) zero_iv (concat [int2bin type; name]).


End Meaning.

(** ** A small instance of the libraries

    Stand-ins with the sizes and the inverse laws of the real libraries (and
    none of their strength), on which the client can be run. *)

Definition small_sha256 (m : bytes) : bytes :=
  take 32 (map (xor_ascii "S") m ++ replicate 32 "#"%char).

Definition small_hmac (k m : bytes) : bytes :=
  take 16 (strxor (k ++ replicate 16 zero) (m ++ replicate 16 zero)).

Definition small_block (k b : bytes) : bytes :=
  strxor b (take 16 (k ++ replicate 16 zero)).

Definition small_urlencode (params : gmap string bytes) : bytes :=
  mjoin ((λ kv, str kv.1 ++ str "=" ++ kv.2 ++ str "&") <$> map_to_list params).

Definition small_sign (key message : bytes) (w : World)
    : World * (bytes * bytes) :=
  (w, (small_hmac key message, small_sha256 (message ++ key))).

(** A world to run in: entropy counts up, the clock reads
    1234567890.5 seconds. *)
Definition small_world : World := {|
  entropy := λ n, ascii_of_nat (n + 65);
  entropy_pos := 0;
  urandom := λ n, ascii_of_nat (7 * n + 3);
  urandom_pos := 0;
  clock := Qmake 2469135781 2;
  calls := [];
  stdout := [];
  server := λ _ _, mkResponse 200 (str "OK") (str "[]");
  requests := []
|}.

(** A world whose entropy is all zero: [encrypt] draws the zero IV in it. *)
Definition zero_entropy_world : World := {|
  entropy := λ _, zero;
  entropy_pos := 0;
  urandom := urandom small_world;
  urandom_pos := 0;
  clock := clock small_world;
  calls := [];
  stdout := [];
  server := server small_world;
  requests := []
|}.

(** A world whose server refuses every request. *)
Definition refusing_world : World := {|
  entropy := entropy small_world;
  entropy_pos := 0;
  urandom := urandom small_world;
  urandom_pos := 0;
  clock := clock small_world;
  calls := [];
  stdout := [];
  server := λ _ _, mkResponse 404 (str "Not Found") (str "no such resource");
  requests := []
|}.

(** ** Facts about the Python values *)

Lemma len_nonneg (s : bytes) : 0 ≤ len s.
Proof. unfold len. lia. Qed.

Lemma len_app (s t : bytes) : len (s ++ t) = len s + len t.
Proof. unfold len. rewrite length_app. lia. Qed.

Lemma length_range (n : Z) : length (range n) = Z.to_nat n.
Proof. unfold range. by rewrite length_map, length_seq. Qed.

Lemma xorb_cancel (x y : bool) : xorb (xorb x y) y = x.
Proof. by destruct x, y. Qed.

Lemma xor_ascii_cancel (a b : ascii) : xor_ascii (xor_ascii a b) b = a.
Proof. destruct a, b; simpl. f_equal; apply xorb_cancel. Qed.

Lemma length_strxor (x y : bytes) :
  length (strxor x y) = Nat.min (length x) (length y).
Proof. unfold strxor. apply length_zip_with. Qed.

Lemma strxor_cancel (x y : bytes) :
  length x = length y → strxor (strxor x y) y = x.
Proof.
  unfold strxor. revert y.
  induction x as [|a x IH]; intros [|b y] Hlen; simpl in *; try done.
  rewrite xor_ascii_cancel, IH; [done | lia].
Qed.

Lemma ord_range (c : ascii) : 0 ≤ ord c < 256.
Proof. unfold ord. pose proof (N_ascii_bounded c). lia. Qed.

Lemma ord_chr (n : Z) : 0 ≤ n < 256 → ord (ascii_of_N (Z.to_N n)) = n.
Proof.
  intros Hn. unfold ord. rewrite N_ascii_embedding by lia. lia.
Qed.

Lemma int_of_bytes_snoc (s : bytes) (c : ascii) :
  int_of_bytes (s ++ [c]) = int_of_bytes s * 256 + ord c.
Proof. unfold int_of_bytes. by rewrite foldl_app. Qed.

Lemma int_of_bytes_range (s : bytes) : 0 ≤ int_of_bytes s < 256 ^ len s.
Proof.
  induction s as [|c s IH] using rev_ind; [done|].
  rewrite int_of_bytes_snoc, len_app.
  pose proof (ord_range c). pose proof (len_nonneg s).
  change (len [c]) with 1. rewrite Z.pow_add_r by lia. lia.
Qed.

Lemma elem_of_range_down (a b i : Z) :
  i ∈ range_down a b ↔ b < i ≤ a.
Proof.
  unfold range_down. rewrite list_elem_of_fmap. split.
  - intros (k & -> & Hk). apply elem_of_seq in Hk. lia.
  - intros Hi. exists (Z.to_nat (a - i)). split; [lia|].
    apply elem_of_seq. lia.
Qed.

Lemma range_down_cons (a b : Z) :
  b < a → range_down a b = a :: range_down (a - 1) b.
Proof.
  intros Hab. unfold range_down.
  replace (Z.to_nat (a - b)) with (S (Z.to_nat (a - 1 - b))) by lia.
  simpl. f_equal; [lia|].
  rewrite <- fmap_S_seq, <- list_fmap_compose.
  apply list_fmap_ext. intros _ k _. simpl. lia.
Qed.

Lemma slice_to_from_end (plain : bytes) (n : Z) :
  1 ≤ n ≤ len plain →
  slice_to plain (- n) = take (Z.to_nat (len plain - n)) plain.
Proof.
  intros Hn. unfold slice_to.
  replace (- n <? 0) with true by (symmetry; apply Z.ltb_lt; lia).
  f_equal. lia.
Qed.

Lemma from_end_last (s : bytes) (c : ascii) :
  last s = Some c → from_end s 1 = c ∧ 1 ≤ len s.
Proof.
  intros Hlast. induction s as [|a s _] using rev_ind; [done|].
  rewrite last_snoc in Hlast. injection Hlast as ->.
  unfold from_end. rewrite len_app. unfold len; simpl. split; [|lia].
  replace (Z.to_nat (Z.of_nat (length s) + Z.of_nat 1 - 1))
    with (length s) by lia.
  rewrite app_nth2, Nat.sub_diag by lia. done.
Qed.

(** ** The small instance is an instance *)

Lemma small_sha256_size (m : bytes) : length (small_sha256 m) = 32%nat.
Proof.
  unfold small_sha256.
  rewrite length_take, length_app, length_replicate. lia.
Qed.

Lemma small_hmac_size (k m : bytes) : length (small_hmac k m) = 16%nat.
Proof.
  unfold small_hmac.
  rewrite length_take, length_strxor, !length_app, !length_replicate. lia.
Qed.

Lemma small_block_size (k b : bytes) :
  aes_key_ok k = true → length b = 16%nat → length (small_block k b) = 16%nat.
Proof.
  intros _ Hb. unfold small_block.
  rewrite length_strxor, length_take, length_app, length_replicate. lia.
Qed.

Lemma small_block_inverse (k b : bytes) :
  aes_key_ok k = true → length b = 16%nat →
  small_block k (small_block k b) = b.
Proof.
  intros _ Hb. unfold small_block. apply strxor_cancel.
  rewrite length_take, length_app, length_replicate. lia.
Qed.

#[export] Instance small_libs : Libs := {|
  sha256 := small_sha256;
  hmac_md5 := small_hmac;
  aes_block_encrypt := small_block;
  aes_block_decrypt := small_block;
  urlsafe_b64encode := λ s, s;
  urlsafe_b64decode := λ s, Some s;
  urlencode := small_urlencode;
  json_loads := λ _, Some [];
  fmt_f := λ x, fmt_d (int_of_float x);
  int2bin_width := 4;
  schnorr_public := small_sha256;
  schnorr_sign := small_sign;
  sha256_size := small_sha256_size;
  hmac_md5_size := small_hmac_size;
  aes_block_encrypt_size := small_block_size;
  aes_block_decrypt_size := small_block_size;
  aes_block_decrypt_encrypt := small_block_inverse;
  urlsafe_b64decode_encode := λ x, eq_refl
|}.

Definition hunter2 : KeyDeriver := keys_of (L := small_libs) (str "hunter2").

(** The small instance again, with a JSON decoder that reads every body as
    the given records. *)
Definition listing_libs (records : list JsonRecord) : Libs := {|
  sha256 := small_sha256;
  hmac_md5 := small_hmac;
  aes_block_encrypt := small_block;
  aes_block_decrypt := small_block;
  urlsafe_b64encode := λ s, s;
  urlsafe_b64decode := λ s, Some s;
  urlencode := small_urlencode;
  json_loads := λ _, Some records;
  fmt_f := λ x, fmt_d (int_of_float x);
  int2bin_width := 4;
  schnorr_public := small_sha256;
  schnorr_sign := small_sign;
  sha256_size := small_sha256_size;
  hmac_md5_size := small_hmac_size;
  aes_block_encrypt_size := small_block_size;
  aes_block_decrypt_size := small_block_size;
  aes_block_decrypt_encrypt := small_block_inverse;
  urlsafe_b64decode_encode := λ x, eq_refl
|}.

(** A reader of decimal numerals, to stand for [int] on a string. *)
Definition small_int (s : bytes) : option Z :=
  if bool_decide (s ≠ []) && forallb (λ c, (48 <=? ord c) && (ord c <=? 57)) s
  then Some (foldl (λ acc c, acc * 10 + (ord c - 48)) 0 s)
  else None.

(** ** Running the monad *)

Lemma bind_ok {A B} (m : M A) (k : A → M B) (w w' : World) (a : A) :
  m w = (w', Ok a) → (m ≫= k) w = k a w'.
Proof. intros H. unfold mbind, M_bind. by rewrite H. Qed.

Lemma bind_raise {A B} (m : M A) (k : A → M B) (w w' : World) (e : exn) :
  m w = (w', Raise e) → (m ≫= k) w = (w', Raise e).
Proof. intros H. unfold mbind, M_bind. by rewrite H. Qed.

Lemma log_calls_app (cs cs' : list Call) (w : World) :
  log_calls cs' (log_calls cs w) = log_calls (cs ++ cs') w.
Proof. unfold log_calls; simpl. by rewrite <- app_assoc. Qed.

Lemma log_calls_nil (w : World) : log_calls [] w = w.
Proof. destruct w. unfold log_calls; simpl. by rewrite app_nil_r. Qed.

Lemma fmt_c_run (n : Z) (w : World) :
  0 ≤ n < 256 → fmt_c n w = (w, Ok (ascii_of_N (Z.to_N n))).
Proof.
  intros Hn. unfold fmt_c.
  replace (0 <=? n) with true by (symmetry; apply Z.leb_le; lia).
  replace (n <? 256) with true by (symmetry; apply Z.ltb_lt; lia).
  done.
Qed.

Lemma getitem_from_end (s : bytes) (k : Z) (w : World) :
  1 ≤ k ≤ len s → getitem s (- k) w = (w, Ok (from_end s k)).
Proof.
  intros Hk. unfold getitem, from_end.
  replace (- k <? 0) with true by (symmetry; apply Z.ltb_lt; lia).
  replace (- k + len s) with (len s - k) by lia.
  replace (0 <=? len s - k) with true by (symmetry; apply Z.leb_le; lia).
  replace (len s - k <? len s) with true by (symmetry; apply Z.ltb_lt; lia).
  done.
Qed.

Lemma getitem_before_start (s : bytes) (k : Z) (w : World) :
  len s < k →
  getitem s (- k) w = (w, Raise (IndexError "string index out of range")).
Proof.
  intros Hk. pose proof (len_nonneg s). unfold getitem.
  replace (- k <? 0) with true by (symmetry; apply Z.ltb_lt; lia).
  replace (0 <=? - k + len s) with false by (symmetry; apply Z.leb_gt; lia).
  done.
Qed.

(** Appending one character per turn of a loop appends a run of it. *)
Lemma for_fold_snoc {A} (c : ascii) (xs : list A) (s : bytes)
    (body : bytes → A → M bytes) (w : World) :
  (∀ acc x, body acc x w = (w, Ok (acc ++ [c]))) →
  for_fold xs s body w = (w, Ok (s ++ replicate (length xs) c)).
Proof.
  intros Hbody. revert s. induction xs as [|x xs IH]; intros s; simpl.
  - by rewrite app_nil_r.
  - erewrite bind_ok by apply Hbody. rewrite IH, <- app_assoc. done.
Qed.

(** A loop whose body succeeds at every element, leaving the world as it
    was, succeeds and leaves the world as it was. *)
Lemma for_each_ok {A} (xs : list A) (body : A → M unit) (w : World) :
  (∀ x, x ∈ xs → body x w = (w, Ok tt)) → for_each xs body w = (w, Ok tt).
Proof.
  induction xs as [|x xs IH]; intros Hbody; simpl; [done|].
  erewrite bind_ok by (apply Hbody; left).
  apply IH. intros y Hy. apply Hbody. by right.
Qed.

(** A loop stops at the first element whose body raises. *)
Lemma for_each_raise {A} (xs ys : list A) (x : A) (body : A → M unit)
    (w : World) (e : exn) :
  (∀ y, y ∈ xs → body y w = (w, Ok tt)) → body x w = (w, Raise e) →
  for_each (xs ++ x :: ys) body w = (w, Raise e).
Proof.
  induction xs as [|y xs IH]; intros Hxs Hx; simpl.
  - by erewrite bind_raise.
  - erewrite bind_ok by (apply Hxs; left).
    apply IH; [|done]. intros z Hz. apply Hxs. by right.
Qed.

Section Facts.
Context {L : Libs}.

(** ** Facts about the libraries *)

Lemma length_cbc_encrypt (n : nat) (key prev data : bytes) :
  aes_key_ok key = true → length prev = 16%nat →
  length data = (16 * n)%nat →
  length (cbc_encrypt n key prev data) = (16 * n)%nat.
Proof.
  intros Hkey. revert prev data.
  induction n as [|n IH]; intros prev data Hprev Hdata; simpl; [done|].
  assert (Hblock : length (strxor (take 16 data) prev) = 16%nat).
  { rewrite length_strxor, length_take. lia. }
  rewrite length_app, aes_block_encrypt_size by done.
  rewrite IH; [lia | by apply aes_block_encrypt_size |].
  rewrite length_drop. lia.
Qed.

Lemma length_cbc_decrypt (n : nat) (key prev data : bytes) :
  aes_key_ok key = true → length prev = 16%nat →
  length data = (16 * n)%nat →
  length (cbc_decrypt n key prev data) = (16 * n)%nat.
Proof.
  intros Hkey. revert prev data.
  induction n as [|n IH]; intros prev data Hprev Hdata; simpl; [done|].
  assert (Hblock : length (take 16 data) = 16%nat).
  { rewrite length_take. lia. }
  rewrite length_app, length_strxor, aes_block_decrypt_size by done.
  rewrite IH; [lia | done |].
  rewrite length_drop. lia.
Qed.

(** CBC decryption undoes CBC encryption under the same key and IV. *)
Lemma cbc_decrypt_encrypt (n : nat) (key prev data : bytes) :
  aes_key_ok key = true → length prev = 16%nat →
  length data = (16 * n)%nat →
  cbc_decrypt n key prev (cbc_encrypt n key prev data) = data.
Proof.
  intros Hkey. revert prev data.
  induction n as [|n IH]; intros prev data Hprev Hdata; simpl.
  - destruct data; [done | simpl in Hdata; lia].
  - assert (Htake : length (take 16 data) = 16%nat).
    { rewrite length_take. lia. }
    assert (Hblock : length (strxor (take 16 data) prev) = 16%nat).
    { rewrite length_strxor. lia. }
    set (block := aes_block_encrypt key (strxor (take 16 data) prev)).
    assert (Hsize : length block = 16%nat)
      by (by apply aes_block_encrypt_size).
    rewrite take_app_length' by done.
    rewrite drop_app_length' by done.
    unfold block at 1. rewrite aes_block_decrypt_encrypt by done.
    rewrite strxor_cancel by lia.
    rewrite IH; [apply take_drop | done |].
    rewrite length_drop. lia.
Qed.

(** CBC encryption under a fixed key and IV loses nothing. *)
Lemma cbc_encrypt_inj (n : nat) (key prev x y : bytes) :
  aes_key_ok key = true → length prev = 16%nat →
  length x = (16 * n)%nat → length y = (16 * n)%nat →
  cbc_encrypt n key prev x = cbc_encrypt n key prev y → x = y.
Proof.
  intros Hkey Hprev Hx Hy Heq.
  rewrite <- (cbc_decrypt_encrypt n key prev x) by done.
  rewrite Heq. by apply cbc_decrypt_encrypt.
Qed.

Lemma b64enc_inj (x y : bytes) : b64enc x = b64enc y → x = y.
Proof.
  unfold b64enc. intros Heq.
  assert (H : Some x = Some y)
    by (rewrite <- !urlsafe_b64decode_encode; by rewrite Heq).
  by injection H.
Qed.

Lemma AES_new_CBC_run (key iv : bytes) (w : World) :
  aes_key_ok key = true → length iv = 16%nat →
  AES_new_CBC key iv w = (log_calls [CallAESnew key iv] w, Ok (mkCrypter key iv)).
Proof.
  intros Hkey Hiv. unfold AES_new_CBC.
  erewrite bind_ok by reflexivity.
  rewrite Hkey, (bool_decide_eq_true_2 _ Hiv). simpl.
  rewrite bool_decide_eq_false_2; [done | lia].
Qed.

Lemma Crypter_encrypt_run (c : Crypter) (data : bytes) (w : World) :
  len data `mod` 16 = 0 →
  Crypter_encrypt c data w
  = (log_calls [CallAESencrypt (crypter_key c) (crypter_iv c) data] w,
     Ok (cbc_encrypt (length data / 16) (crypter_key c) (crypter_iv c) data)).
Proof.
  intros Hmod. unfold Crypter_encrypt.
  erewrite bind_ok by reflexivity.
  by rewrite (bool_decide_eq_true_2 _ Hmod).
Qed.

Lemma Crypter_decrypt_run (c : Crypter) (data : bytes) (w : World) :
  len data `mod` 16 = 0 →
  Crypter_decrypt c data w
  = (log_calls [CallAESdecrypt (crypter_key c) (crypter_iv c) data] w,
     Ok (cbc_decrypt (length data / 16) (crypter_key c) (crypter_iv c) data)).
Proof.
  intros Hmod. unfold Crypter_decrypt.
  erewrite bind_ok by reflexivity.
  by rewrite (bool_decide_eq_true_2 _ Hmod).
Qed.

Lemma Crypter_decrypt_misaligned (c : Crypter) (data : bytes) (w : World) :
  len data `mod` 16 ≠ 0 →
  Crypter_decrypt c data w
  = (log_calls [CallAESdecrypt (crypter_key c) (crypter_iv c) data] w,
     Raise (ValueError "Input strings must be a multiple of 16 in length")).
Proof.
  intros Hmod. unfold Crypter_decrypt.
  erewrite bind_ok by reflexivity.
  by rewrite (bool_decide_eq_false_2 _ Hmod).
Qed.

(** ** Keys, padding and sealing *)

Lemma KeyDeriver_init_run (password : bytes) (w : World) :
  KeyDeriver_init password w
  = (log_calls [CallSHA256 password; CallSHA256 (sha256 password);
                CallSHA256 (sha256 (sha256 password))] w,
     Ok (keys_of password)).
Proof.
  unfold KeyDeriver_init, SHA256_new_digest, record_call, mbind, M_bind,
    mret, M_ret.
  by rewrite !log_calls_app.
Qed.

Lemma crypt_key_ok (password : bytes) :
  aes_key_ok (crypt (keys_of password)) = true.
Proof.
  unfold aes_key_ok, keys_of; simpl.
  rewrite (bool_decide_eq_true_2 (_ = 32%nat)) by apply sha256_size.
  by rewrite orb_true_r.
Qed.

Lemma pad_of_range (plain : bytes) : 1 ≤ pad_of plain ≤ 16.
Proof.
  unfold pad_of. pose proof (Z.mod_pos_bound (len plain) 16). lia.
Qed.

Lemma len_padded (plain : bytes) : len (padded plain) = len plain + pad_of plain.
Proof.
  unfold padded. rewrite len_app. unfold len at 2.
  rewrite length_replicate. pose proof (pad_of_range plain). lia.
Qed.

Lemma len_padded_mod (plain : bytes) : len (padded plain) `mod` 16 = 0.
Proof.
  rewrite len_padded. unfold pad_of.
  replace (len plain + (16 - len plain `mod` 16))
    with (len plain - len plain `mod` 16 + 1 * 16) by lia.
  rewrite Z.mod_add by lia.
  rewrite <- Zminus_mod_idemp_l. rewrite Z.sub_diag. done.
Qed.

Lemma length_padded_blocks (plain : bytes) :
  length (padded plain) = (16 * (length (padded plain) / 16))%nat.
Proof.
  pose proof (len_padded_mod plain) as Hmod. unfold len in Hmod.
  pose proof (Nat.div_mod_eq (length (padded plain)) 16) as Hdiv.
  assert ((length (padded plain) mod 16)%nat = 0%nat).
  { apply Nat2Z.inj. rewrite Nat2Z.inj_mod. exact Hmod. }
  lia.
Qed.

Lemma encryptWithIV_run (self : KeyDeriver) (plain iv : bytes) (w : World) :
  aes_key_ok (crypt self) = true → length iv = 16%nat →
  encryptWithIV self plain iv w
  = (log_calls (encryptWithIV_calls self iv plain) w, Ok (sealed self iv plain)).
Proof.
  intros Hkey Hiv. unfold encryptWithIV.
  pose proof (pad_of_range plain) as Hpad.
  erewrite bind_ok by (by apply AES_new_CBC_run).
  erewrite bind_ok by (apply fmt_c_run; fold (pad_of plain); lia).
  fold (pad_of plain).
  erewrite bind_ok by (by apply for_fold_snoc).
  rewrite length_range. fold (padded plain).
  erewrite bind_ok by (apply Crypter_encrypt_run, len_padded_mod).
  simpl crypter_key; simpl crypter_iv.
  fold (ciphertext self iv plain).
  unfold HMAC_new. erewrite bind_ok by (erewrite bind_ok by reflexivity; reflexivity).
  unfold mret, M_ret, record_call, sealed, digest, encryptWithIV_calls; simpl.
  by rewrite !log_calls_app.
Qed.

Lemma length_ciphertext (self : KeyDeriver) (iv plain : bytes) :
  aes_key_ok (crypt self) = true → length iv = 16%nat →
  length (ciphertext self iv plain) = length (padded plain).
Proof.
  intros Hkey Hiv. unfold ciphertext.
  rewrite length_cbc_encrypt; try done.
  - symmetry. apply length_padded_blocks.
  - apply length_padded_blocks.
Qed.

Lemma len_ciphertext (self : KeyDeriver) (iv plain : bytes) :
  aes_key_ok (crypt self) = true → length iv = 16%nat →
  len (ciphertext self iv plain) = len plain + pad_of plain.
Proof.
  intros Hkey Hiv. rewrite <- len_padded. unfold len.
  by rewrite length_ciphertext.
Qed.

Lemma length_drawn_iv (w : World) : length (drawn_iv w) = 16%nat.
Proof. unfold drawn_iv. by rewrite length_map, length_seq. Qed.

Lemma encrypt_run (self : KeyDeriver) (plain : bytes) (w : World) :
  aes_key_ok (crypt self) = true →
  encrypt self plain w
  = (log_calls (encryptWithIV_calls self (drawn_iv w) plain) (use_entropy 16 w),
     Ok (b64enc (drawn_iv w ++ sealed self (drawn_iv w) plain))).
Proof.
  intros Hkey. unfold encrypt.
  erewrite bind_ok by reflexivity. fold (drawn_iv w).
  erewrite bind_ok by (apply encryptWithIV_run; [done | apply length_drawn_iv]).
  done.
Qed.

Lemma permute_run (self : KeyDeriver) (plain : bytes) (w : World) :
  aes_key_ok (crypt self) = true →
  permute self plain w
  = (log_calls (encryptWithIV_calls self zero_iv plain) w,
     Ok (b64enc (sealed self zero_iv plain))).
Proof.
  intros Hkey. unfold permute.
  erewrite bind_ok.
  2: { apply (for_fold_snoc zero). intros acc i.
       by erewrite bind_ok by (by apply fmt_c_run). }
  change ([] ++ replicate (length (range 16)) zero) with zero_iv.
  erewrite bind_ok by (by apply encryptWithIV_run).
  done.
Qed.

(** ** Decryption, step by step *)

Lemma padding_turn_same (plain : bytes) (c : ascii) (k : Z) (w : World) :
  1 ≤ k ≤ len plain → from_end plain k = c →
  padding_turn plain c (- k) w = (w, Ok tt).
Proof.
  intros Hk Hc. unfold padding_turn.
  erewrite bind_ok by (by apply getitem_from_end).
  rewrite bool_decide_eq_false_2; [done | by intros []].
Qed.

Lemma padding_turn_differs (plain : bytes) (c : ascii) (k : Z) (w : World) :
  1 ≤ k ≤ len plain → from_end plain k ≠ c →
  padding_turn plain c (- k) w = (w, Raise PaddingError).
Proof.
  intros Hk Hc. unfold padding_turn.
  erewrite bind_ok by (by apply getitem_from_end).
  by rewrite bool_decide_eq_true_2.
Qed.

Lemma padding_turn_outside (plain : bytes) (c : ascii) (k : Z) (w : World) :
  len plain < k →
  padding_turn plain c (- k) w
  = (w, Raise (IndexError "string index out of range")).
Proof.
  intros Hk. unfold padding_turn.
  by erewrite bind_raise by (by apply getitem_before_start).
Qed.

(** The padding loop never changes the world, and ends in one of three
    ways. *)
Lemma padding_loop_cases (plain : bytes) (c : ascii) (w : World) (ks : list Z) :
  (∀ i, i ∈ ks → i ≤ -1) →
  (for_each ks (padding_turn plain c) w = (w, Ok tt)
   ∧ ∀ i, i ∈ ks → 1 ≤ - i ≤ len plain ∧ from_end plain (- i) = c)
  ∨ (for_each ks (padding_turn plain c) w = (w, Raise PaddingError)
     ∧ ∃ i, i ∈ ks ∧ 1 ≤ - i ≤ len plain ∧ from_end plain (- i) ≠ c)
  ∨ (for_each ks (padding_turn plain c) w
     = (w, Raise (IndexError "string index out of range"))
     ∧ ∃ i, i ∈ ks ∧ len plain < - i).
Proof.
  induction ks as [|i ks IH]; intros Hneg.
  - left. split; [done|]. intros i Hi. by apply elem_of_nil in Hi.
  - assert (Hi : i ≤ -1) by (apply Hneg; left).
    assert (Hks : ∀ j, j ∈ ks → j ≤ -1) by (intros j Hj; apply Hneg; by right).
    simpl.
    destruct (decide (- i ≤ len plain)) as [Hin|Hout].
    + destruct (decide (from_end plain (- i) = c)) as [Hsame|Hdiff].
      * assert (Hturn : padding_turn plain c i w = (w, Ok tt)).
        { rewrite <- (Z.opp_involutive i).
          apply padding_turn_same; [lia | done]. }
        erewrite bind_ok by exact Hturn.
        destruct (IH Hks) as [[Hrun Hall]|[[Hrun Hex]|[Hrun Hex]]].
        -- left. split; [done|]. intros j Hj.
           apply elem_of_cons in Hj as [->|Hj];
             [split; [lia|done] | by apply Hall].
        -- right; left. split; [done|].
           destruct Hex as (j & Hj & Hjk). exists j. split; [by right | done].
        -- right; right. split; [done|].
           destruct Hex as (j & Hj & Hjk). exists j. split; [by right | done].
      * right; left.
        assert (Hturn : padding_turn plain c i w = (w, Raise PaddingError)).
        { rewrite <- (Z.opp_involutive i).
          apply padding_turn_differs; [lia | done]. }
        erewrite bind_raise by exact Hturn.
        split; [done|]. exists i. split; [left | split; [lia | done]].
    + right; right.
      assert (Hturn : padding_turn plain c i w
                      = (w, Raise (IndexError "string index out of range"))).
      { rewrite <- (Z.opp_involutive i). apply padding_turn_outside. lia. }
      erewrite bind_raise by exact Hturn.
      split; [done|]. exists i. split; [left | lia].
Qed.

(** The padding loop reports a byte that differs from [c] when it meets
    one: the places nearer the end were all there to be read. *)
Lemma padding_loop_rejects (plain : bytes) (c : ascii) (w : World) (n : nat) :
  ∀ a, 1 ≤ a →
    (∃ k, a ≤ k < a + Z.of_nat n ∧ k ≤ len plain ∧ from_end plain k ≠ c) →
    for_each (range_down (- a) (- a - Z.of_nat n)) (padding_turn plain c) w
    = (w, Raise PaddingError).
Proof.
  induction n as [|n IH]; intros a Ha (k & Hk & Hin & Hdiff); [lia|].
  rewrite range_down_cons by lia. simpl.
  destruct (decide (from_end plain a = c)) as [Hsame|Hdiffa].
  - erewrite bind_ok by (apply padding_turn_same; [lia | done]).
    replace (- a - 1) with (- (a + 1)) by lia.
    replace (- a - Z.of_nat (S n)) with (- (a + 1) - Z.of_nat n) by lia.
    apply IH; [lia|]. exists k. split; [|done].
    assert (k ≠ a) by (intros ->; done). lia.
  - by erewrite bind_raise by (apply padding_turn_differs; [lia | done]).
Qed.

Lemma strip_padding_empty (w : World) :
  strip_padding [] w = (w, Raise (IndexError "string index out of range")).
Proof. reflexivity. Qed.

(** What the end of [decrypt] does with a non-empty plaintext whose last
    character is [c]: the loop looks at the places [1 .. ord c - 1] from the
    end, in that order. *)
Lemma strip_padding_cases (plain : bytes) (c : ascii) (w : World) :
  last plain = Some c →
  (strip_padding plain w = (w, Ok (slice_to plain (- ord c)))
   ∧ ∀ k, 1 ≤ k < ord c → k ≤ len plain ∧ from_end plain k = c)
  ∨ (strip_padding plain w = (w, Raise PaddingError)
     ∧ ∃ k, 1 ≤ k < ord c ∧ k ≤ len plain ∧ from_end plain k ≠ c)
  ∨ (strip_padding plain w
     = (w, Raise (IndexError "string index out of range"))
     ∧ ∃ k, 1 ≤ k < ord c ∧ len plain < k).
Proof.
  intros Hlast. destruct (from_end_last _ _ Hlast) as [Hc Hlen].
  unfold strip_padding.
  erewrite bind_ok by (apply (getitem_from_end plain 1); lia).
  rewrite Hc.
  destruct (padding_loop_cases plain c w (range_down (-1) (- ord c)))
    as [[Hrun Hall]|[[Hrun Hex]|[Hrun Hex]]].
  - intros i Hi. apply elem_of_range_down in Hi. lia.
  - left. erewrite bind_ok by exact Hrun. split; [done|].
    intros k Hk. destruct (Hall (- k)) as [Hin Hsame].
    { apply elem_of_range_down. lia. }
    rewrite Z.opp_involutive in Hin, Hsame. split; [lia | done].
  - right; left. erewrite bind_raise by exact Hrun. split; [done|].
    destruct Hex as (i & Hi & Hin & Hdiff).
    apply elem_of_range_down in Hi. exists (- i). split; [lia|]. split; [lia|done].
  - right; right. erewrite bind_raise by exact Hrun. split; [done|].
    destruct Hex as (i & Hi & Hout).
    apply elem_of_range_down in Hi. exists (- i). split; lia.
Qed.

Lemma strip_padding_world (plain : bytes) (w : World) :
  (strip_padding plain w).1 = w.
Proof.
  destruct (last plain) as [c|] eqn:Hlast.
  - destruct (strip_padding_cases plain c w Hlast)
      as [[-> _]|[[-> _]|[-> _]]]; done.
  - apply last_None in Hlast as ->. done.
Qed.

(** Exactly when the end of [decrypt] lets a plaintext through: the places
    [1 .. ord c - 1] from the end exist and hold [c]. *)
Lemma strip_padding_accepts (plain : bytes) (c : ascii) (w : World) :
  last plain = Some c →
  (∀ k, 1 ≤ k < ord c → k ≤ len plain ∧ from_end plain k = c) →
  strip_padding plain w = (w, Ok (slice_to plain (- ord c))).
Proof.
  intros Hlast Hall.
  destruct (strip_padding_cases plain c w Hlast)
    as [[Hrun _]|[[_ Hex]|[_ Hex]]]; [done| |].
  - destruct Hex as (k & Hk & _ & Hdiff). by destruct (Hall k Hk).
  - destruct Hex as (k & Hk & Hout). destruct (Hall k Hk). lia.
Qed.

Lemma strip_padding_rejects (plain : bytes) (c : ascii) (w : World) :
  last plain = Some c →
  (∃ k, 1 ≤ k < ord c ∧ k ≤ len plain ∧ from_end plain k ≠ c) →
  strip_padding plain w = (w, Raise PaddingError).
Proof.
  intros Hlast (k & Hk & Hin & Hdiff).
  destruct (from_end_last _ _ Hlast) as [Hc Hlen].
  unfold strip_padding.
  erewrite bind_ok by (apply (getitem_from_end plain 1); lia).
  rewrite Hc. erewrite bind_raise; [done|].
  replace (- ord c) with (- 1 - Z.of_nat (Z.to_nat (ord c - 1))) by lia.
  apply (padding_loop_rejects plain c w _ 1); [lia|].
  exists k. split; [lia | done].
Qed.

Lemma decrypt_undecodable (self : KeyDeriver) (env : bytes) (w : World) :
  urlsafe_b64decode env = None →
  decrypt self env w = (w, Raise (TypeError "Incorrect padding")).
Proof.
  intros Hdec. unfold decrypt.
  erewrite bind_raise; [done|]. unfold b64dec. by rewrite Hdec.
Qed.

Lemma decrypt_short (self : KeyDeriver) (env d : bytes) (w : World) :
  urlsafe_b64decode env = Some d → len d < 32 →
  decrypt self env w = (w, Raise FormatError).
Proof.
  intros Hdec Hlen. unfold decrypt.
  erewrite bind_ok by (unfold b64dec; by rewrite Hdec).
  by replace (len d <? 32) with true by (symmetry; apply Z.ltb_lt; lia).
Qed.

Lemma decrypt_mac_mismatch (self : KeyDeriver) (env d : bytes) (w : World) :
  urlsafe_b64decode env = Some d → 32 ≤ len d →
  mac_part d ≠ hmac_md5 (mac self) (ciphertext_part d) →
  decrypt self env w
  = (log_calls [CallHMAC (mac self) (ciphertext_part d)] w,
     Raise AuthenticationError).
Proof.
  intros Hdec Hlen Hmac. unfold decrypt.
  erewrite bind_ok by (unfold b64dec; by rewrite Hdec).
  replace (len d <? 32) with false by (symmetry; apply Z.ltb_ge; lia).
  fold (ciphertext_part d) (mac_part d) (iv_part d).
  erewrite bind_ok by reflexivity.
  by rewrite bool_decide_eq_true_2.
Qed.

Lemma decrypt_mac_match (self : KeyDeriver) (env d : bytes) (w : World) :
  urlsafe_b64decode env = Some d → 32 ≤ len d →
  mac_part d = hmac_md5 (mac self) (ciphertext_part d) →
  decrypt self env w
  = decrypt_verified self (iv_part d) (ciphertext_part d)
      (log_calls [CallHMAC (mac self) (ciphertext_part d)] w).
Proof.
  intros Hdec Hlen Hmac. unfold decrypt.
  erewrite bind_ok by (unfold b64dec; by rewrite Hdec).
  replace (len d <? 32) with false by (symmetry; apply Z.ltb_ge; lia).
  fold (ciphertext_part d) (mac_part d) (iv_part d).
  erewrite bind_ok by reflexivity.
  rewrite bool_decide_eq_false_2; [done|]. by intros [].
Qed.

Lemma length_iv_part (d : bytes) : 32 ≤ len d → length (iv_part d) = 16%nat.
Proof.
  unfold iv_part, slice, len. intros Hlen.
  rewrite length_take, length_drop. lia.
Qed.

Lemma decrypt_verified_run (self : KeyDeriver) (iv crypted : bytes)
    (w : World) :
  aes_key_ok (crypt self) = true → length iv = 16%nat →
  len crypted `mod` 16 = 0 →
  decrypt_verified self iv crypted w
  = strip_padding (cbc_decrypt (length crypted / 16) (crypt self) iv crypted)
      (log_calls (decrypt_verified_calls self iv crypted) w).
Proof.
  intros Hkey Hiv Hmod. unfold decrypt_verified.
  erewrite bind_ok by (by apply AES_new_CBC_run).
  erewrite bind_ok by (by apply Crypter_decrypt_run).
  by rewrite log_calls_app.
Qed.

Lemma decrypt_verified_misaligned (self : KeyDeriver) (iv crypted : bytes)
    (w : World) :
  aes_key_ok (crypt self) = true → length iv = 16%nat →
  len crypted `mod` 16 ≠ 0 →
  decrypt_verified self iv crypted w
  = (log_calls (decrypt_verified_calls self iv crypted) w,
     Raise (ValueError "Input strings must be a multiple of 16 in length")).
Proof.
  intros Hkey Hiv Hmod. unfold decrypt_verified.
  erewrite bind_ok by (by apply AES_new_CBC_run).
  erewrite bind_raise by (by apply Crypter_decrypt_misaligned).
  by rewrite log_calls_app.
Qed.

(** Past the length check, [decrypt] ends in the world of its library
    calls: the MAC alone when it does not match, the MAC and then the
    cipher when it does. *)
Lemma decrypt_long_world (password env d : bytes) (w : World) :
  let self := keys_of password in
  urlsafe_b64decode env = Some d → 32 ≤ len d →
  (decrypt self env w).1
  = log_calls
      (if bool_decide (mac_part d = hmac_md5 (mac self) (ciphertext_part d))
       then decrypt_calls self (iv_part d) (ciphertext_part d)
       else [CallHMAC (mac self) (ciphertext_part d)]) w.
Proof.
  intros self Hdec Hlen.
  pose proof (crypt_key_ok password) as Hkey.
  pose proof (length_iv_part d Hlen) as Hiv.
  case_bool_decide as Hmac.
  - rewrite (decrypt_mac_match self env d) by done.
    destruct (decide (len (ciphertext_part d) `mod` 16 = 0)) as [Hmod|Hmod].
    + rewrite decrypt_verified_run by done.
      by rewrite strip_padding_world, log_calls_app.
    + rewrite decrypt_verified_misaligned by done.
      by rewrite log_calls_app.
  - by rewrite (decrypt_mac_mismatch self env d) by done.
Qed.

(** Past the length check, [decrypt] never reports a short value. *)
Lemma decrypt_long_not_FormatError (password env d : bytes) (w : World) :
  urlsafe_b64decode env = Some d → 32 ≤ len d →
  (decrypt (keys_of password) env w).2 ≠ Raise FormatError.
Proof.
  intros Hdec Hlen.
  pose proof (crypt_key_ok password) as Hkey.
  pose proof (length_iv_part d Hlen) as Hiv.
  set (self := keys_of password).
  destruct (decide (mac_part d = hmac_md5 (mac self) (ciphertext_part d)))
    as [Hmac|Hmac].
  - rewrite (decrypt_mac_match self env d) by done.
    destruct (decide (len (ciphertext_part d) `mod` 16 = 0)) as [Hmod|Hmod].
    + rewrite decrypt_verified_run by done.
      set (plain := cbc_decrypt _ _ _ _). set (w1 := log_calls _ _).
      destruct (last plain) as [c|] eqn:Hlast.
      * destruct (strip_padding_cases plain c w1 Hlast)
          as [[-> _]|[[-> _]|[-> _]]]; done.
      * apply last_None in Hlast as ->. done.
    + by rewrite decrypt_verified_misaligned by done.
  - by rewrite (decrypt_mac_mismatch self env d) by done.
Qed.

(** ** Envelopes *)

Lemma envelope_parts (iv ct tag : bytes) :
  length iv = 16%nat → length tag = 16%nat →
  32 ≤ len (iv ++ ct ++ tag)
  ∧ iv_part (iv ++ ct ++ tag) = iv
  ∧ ciphertext_part (iv ++ ct ++ tag) = ct
  ∧ mac_part (iv ++ ct ++ tag) = tag.
Proof.
  intros Hiv Htag.
  assert (Hlen : len (iv ++ ct ++ tag) = 32 + len ct).
  { rewrite !len_app. unfold len. lia. }
  pose proof (len_nonneg ct) as Hct.
  split; [lia|]. unfold iv_part, ciphertext_part, mac_part, slice, slice_from.
  rewrite Hlen. split; [|split].
  - change (Z.to_nat 0) with 0%nat. rewrite drop_0.
    replace (Z.to_nat (16 - 0)) with (length iv) by lia.
    by rewrite take_app_length.
  - replace (Z.to_nat 16) with (length iv) by lia.
    rewrite drop_app_length.
    replace (Z.to_nat (32 + len ct - 16 - 16)) with (length ct)
      by (unfold len; lia).
    by rewrite take_app_length.
  - replace (Z.to_nat (32 + len ct - 16)) with (length (iv ++ ct))
      by (rewrite length_app; unfold len; lia).
    by rewrite app_assoc, drop_app_length.
Qed.

(** Decrypting the envelope of a raw plaintext reaches the padding check
    with that plaintext. *)
Lemma decrypt_envelope_of_raw (self : KeyDeriver) (iv raw : bytes) (w : World) :
  aes_key_ok (crypt self) = true → length iv = 16%nat →
  len raw `mod` 16 = 0 →
  decrypt self (envelope_of_raw self iv raw) w
  = strip_padding raw
      (log_calls
         (decrypt_calls self iv
            (cbc_encrypt (length raw / 16) (crypt self) iv raw)) w).
Proof.
  intros Hkey Hiv Hmod. unfold envelope_of_raw.
  set (n := (length raw / 16)%nat).
  assert (Hraw : length raw = (16 * n)%nat).
  { unfold len in Hmod. pose proof (Nat.div_mod_eq (length raw) 16).
    assert ((length raw mod 16)%nat = 0%nat)
      by (apply Nat2Z.inj; by rewrite Nat2Z.inj_mod).
    unfold n. lia. }
  set (ct := cbc_encrypt n (crypt self) iv raw).
  assert (Hct : length ct = (16 * n)%nat) by (by apply length_cbc_encrypt).
  destruct (envelope_parts iv ct (hmac_md5 (mac self) ct) Hiv
              (hmac_md5_size _ _)) as (Hlen & Hivp & Hctp & Hmacp).
  rewrite (decrypt_mac_match self _ (iv ++ ct ++ hmac_md5 (mac self) ct));
    [| apply urlsafe_b64decode_encode | done | by rewrite Hctp, Hmacp].
  rewrite Hivp, Hctp.
  assert (Hctmod : len ct `mod` 16 = 0).
  { unfold len. rewrite Hct, Nat2Z.inj_mul, Z.mul_comm. apply Z.mod_mul. lia. }
  rewrite decrypt_verified_run by done.
  replace (length ct / 16)%nat with n
    by (rewrite Hct, Nat.mul_comm, Nat.div_mul; lia).
  rewrite log_calls_app. unfold ct at 1.
  by rewrite cbc_decrypt_encrypt by done.
Qed.

Lemma last_padded (plain : bytes) :
  last (padded plain) = Some (ascii_of_N (Z.to_N (pad_of plain))).
Proof.
  pose proof (pad_of_range plain) as Hpad. unfold padded.
  destruct (Z.to_nat (pad_of plain)) as [|n] eqn:Hn; [lia|].
  replace (S n) with (n + 1)%nat by lia.
  rewrite replicate_add. simpl. by rewrite app_assoc, last_snoc.
Qed.

Lemma from_end_padded (plain : bytes) (k : Z) :
  1 ≤ k ≤ pad_of plain →
  from_end (padded plain) k = ascii_of_N (Z.to_N (pad_of plain)).
Proof.
  intros Hk. unfold from_end. rewrite len_padded. unfold padded.
  rewrite app_nth2 by (unfold len; lia).
  rewrite nth_lookup, lookup_replicate_2; [done | unfold len; lia].
Qed.

(** The padding [encryptWithIV] adds is the padding [decrypt] strips. *)
Lemma strip_padding_padded (plain : bytes) (w : World) :
  strip_padding (padded plain) w = (w, Ok plain).
Proof.
  pose proof (pad_of_range plain) as Hpad.
  pose proof (len_nonneg plain) as Hlen.
  destruct (strip_padding_cases _ _ w (last_padded plain))
    as [[Hrun _]|[[_ Hex]|[_ Hex]]].
  - rewrite Hrun. do 2 f_equal. rewrite ord_chr by lia.
    unfold slice_to. rewrite len_padded.
    replace (- pad_of plain <? 0) with true by (symmetry; apply Z.ltb_lt; lia).
    replace (Z.to_nat (Z.max (- pad_of plain + (len plain + pad_of plain)) 0))
      with (length plain) by (unfold len; lia).
    unfold padded. by rewrite take_app_length.
  - destruct Hex as (k & Hk & _ & Hdiff). rewrite ord_chr in Hk by lia.
    destruct Hdiff. apply from_end_padded. lia.
  - destruct Hex as (k & Hk & Hout). rewrite ord_chr in Hk by lia.
    rewrite len_padded in Hout. lia.
Qed.

Lemma padded_inj (x y : bytes) : padded x = padded y → x = y.
Proof.
  intros Heq.
  pose proof (strip_padding_padded x small_world) as Hx.
  rewrite Heq, strip_padding_padded in Hx. by injection Hx.
Qed.

(** Under one key and IV, different plaintexts are sealed differently. *)
Lemma sealed_inj (self : KeyDeriver) (iv x y : bytes) :
  aes_key_ok (crypt self) = true → length iv = 16%nat →
  sealed self iv x = sealed self iv y → x = y.
Proof.
  intros Hkey Hiv Heq. unfold sealed in Heq.
  apply app_inj_2 in Heq as [Hct _]; [|by rewrite !hmac_md5_size].
  assert (Hlen : length (padded x) = length (padded y)).
  { rewrite <- !(length_ciphertext self iv) by done. by rewrite Hct. }
  unfold ciphertext in Hct. rewrite Hlen in Hct.
  apply padded_inj.
  apply (cbc_encrypt_inj (length (padded y) / 16) (crypt self) iv); try done.
  - rewrite Hlen. apply length_padded_blocks.
  - apply length_padded_blocks.
Qed.

(** Whatever the libraries, [decrypt] lets through a plaintext that ends in
    seventeen bytes of value 17, and strips them. *)
Lemma decrypt_accepts_seventeen (password iv : bytes) (w : World) :
  length iv = 16%nat →
  let raw := str "AAAAAAAAAAAAAAA" ++ replicate 17 (ascii_of_N 17) in
  (decrypt (keys_of password) (envelope_of_raw (keys_of password) iv raw) w).2
  = Ok (str "AAAAAAAAAAAAAAA").
Proof.
  intros Hiv raw.
  rewrite decrypt_envelope_of_raw by (done || apply crypt_key_ok).
  rewrite (strip_padding_accepts raw (ascii_of_N 17)); [done | done |].
  intros k Hk. change (ord (ascii_of_N 17)) with 17 in Hk.
  split; [by change (len raw) with 32; lia|].
  assert (Hcases : k = 1 ∨ k = 2 ∨ k = 3 ∨ k = 4 ∨ k = 5 ∨ k = 6 ∨ k = 7
                   ∨ k = 8 ∨ k = 9 ∨ k = 10 ∨ k = 11 ∨ k = 12 ∨ k = 13
                   ∨ k = 14 ∨ k = 15 ∨ k = 16) by lia.
  repeat destruct Hcases as [->|Hcases]; try subst k; reflexivity.
Qed.

(** Whatever the libraries and the IV drawn, the output of [permute] is
    never an output of [encrypt] for the same plaintext: it is sixteen bytes
    shorter once decoded. *)
Lemma permute_differs_from_encrypt (password plain : bytes) (w w2 : World) :
  (permute (keys_of password) plain w).2
  ≠ (encrypt (keys_of password) plain w2).2.
Proof.
  pose proof (crypt_key_ok password) as Hkey.
  rewrite permute_run, encrypt_run by done. cbn [snd].
  intros Heq.
  apply (f_equal (λ r, match r with Ok out => out | Raise _ => [] end)) in Heq.
  cbv beta iota in Heq. apply b64enc_inj in Heq.
  apply (f_equal length) in Heq. unfold sealed in Heq.
  rewrite !length_app, !hmac_md5_size, !length_ciphertext, length_drawn_iv in Heq
    by (done || apply length_drawn_iv).
  lia.
Qed.

(** ** The challenge *)

Lemma fmt_d_decimal :
  fmt_d 1234567890 = str "1234567890" ∧ fmt_d 0 = str "0"
  ∧ fmt_d (-5) = str "-5".
Proof. by vm_compute. Qed.

Lemma challenge_nonce_range (w : World) : 0 ≤ challenge_nonce w < 2 ^ 20.
Proof.
  unfold challenge_nonce.
  set (raw := map (urandom w) (seq (urandom_pos w) 3)).
  pose proof (int_of_bytes_range raw) as Hraw.
  assert (Hlen : len raw = 3)
    by (unfold raw, len; by rewrite length_map, length_seq).
  rewrite Hlen in Hraw. rewrite Z.shiftr_div_pow2 by lia.
  split.
  - apply Z.div_pos; lia.
  - apply Z.div_lt_upper_bound; lia.
Qed.

Lemma SystemRandom_getrandbits_20 (w : World) :
  SystemRandom_getrandbits 20 w = (use_urandom 3 w, Ok (challenge_nonce w)).
Proof. reflexivity. Qed.

Lemma makeAuthParams_run (user password : bytes) (w : World) :
  makeAuthParams user password w
  = ((challenge_signed password w).1, Ok (challenge_params user password w)).
Proof.
  unfold makeAuthParams.
  erewrite bind_ok by reflexivity.
  erewrite bind_ok by apply SystemRandom_getrandbits_20.
  erewrite bind_ok by apply KeyDeriver_init_run.
  unfold sign, schnorr; simpl signer_key.
  fold (challenge_t w).
  unfold mbind, M_bind, challenge_params, challenge_signed.
  simpl authenticate.
  by destruct (schnorr_sign _ _ _) as [w' [e s']].
Qed.

(** ** Lookup keys *)

Lemma length_int2bin_be (n : nat) (i : Z) : length (int2bin_be n i) = n.
Proof.
  revert i. induction n as [|n IH]; intros i; simpl; [done|].
  rewrite length_app, IH. simpl. lia.
Qed.

(** Read back as a big-endian number, the encoding gives the integer. *)
Lemma int_of_bytes_int2bin_be (n : nat) (i : Z) :
  int_of_bytes (int2bin_be n i) = i `mod` 256 ^ Z.of_nat n.
Proof.
  revert i. induction n as [|n IH]; intros i.
  - simpl. by rewrite Z.mod_1_r.
  - cbn [int2bin_be]. rewrite int_of_bytes_snoc, IH.
    rewrite ord_chr by (apply Z.mod_pos_bound; lia).
    rewrite Nat2Z.inj_succ, Z.pow_succ_r by lia.
    rewrite (Z.rem_mul_r i 256 (256 ^ Z.of_nat n)) by lia. lia.
Qed.

Lemma int2bin_inj (i j : Z) :
  0 ≤ i < 256 ^ Z.of_nat int2bin_width →
  0 ≤ j < 256 ^ Z.of_nat int2bin_width →
  int2bin i = int2bin j → i = j.
Proof.
  intros Hi Hj Heq. apply (f_equal int_of_bytes) in Heq.
  unfold int2bin in Heq. rewrite !int_of_bytes_int2bin_be in Heq.
  by rewrite !Z.mod_small in Heq.
Qed.

Lemma buildLookupKey_inj (password : bytes) (type type' : Z)
    (name name' : bytes) :
  0 ≤ type < 256 ^ Z.of_nat int2bin_width →
  0 ≤ type' < 256 ^ Z.of_nat int2bin_width →
  buildLookupKey password type name = buildLookupKey password type' name' →
  type = type' ∧ name = name'.
Proof.
  intros Ht Ht' Heq. unfold buildLookupKey in Heq.
  apply b64enc_inj, sealed_inj in Heq; [|apply crypt_key_ok | done].
  unfold concat in Heq. simpl in Heq. rewrite !app_nil_r in Heq.
  apply app_inj_1 in Heq as [Hty Hname];
    [| unfold int2bin; by rewrite !length_int2bin_be].
  split; [by apply int2bin_inj | done].
Qed.

Lemma sends_nothing_bind {A B} (m : M A) (k : A → M B) :
  sends_nothing m → (∀ a, sends_nothing (k a)) → sends_nothing (m ≫= k).
Proof.
  intros Hm Hk w. specialize (Hm w). unfold mbind, M_bind.
  destruct (m w) as [w' [a|e]]; simpl in *; [|done].
  by rewrite Hk.
Qed.

Lemma sends_nothing_for_each {A} (xs : list A) (body : A → M unit) :
  (∀ x, sends_nothing (body x)) → sends_nothing (for_each xs body).
Proof.
  intros Hbody. induction xs as [|x xs IH]; [done|].
  simpl. apply sends_nothing_bind; [apply Hbody | done].
Qed.

Lemma sends_nothing_mret {A} (a : A) : sends_nothing (mret a).
Proof. by intros w. Qed.

Lemma sends_nothing_raise {A} (e : exn) : sends_nothing (raise (A := A) e).
Proof. by intros w. Qed.

Lemma sends_nothing_record_call (c : Call) : sends_nothing (record_call c).
Proof. by intros w. Qed.

Lemma sends_nothing_print (line : bytes) : sends_nothing (print line).
Proof. by intros w. Qed.

Ltac sends_nothing_step :=
  first
    [ apply sends_nothing_mret
    | apply sends_nothing_raise
    | apply sends_nothing_record_call
    | apply sends_nothing_print
    | apply sends_nothing_bind; [|intros ?]
    | apply sends_nothing_for_each; intros ?
    | match goal with
      | |- sends_nothing (if ?b then _ else _) => destruct b
      | |- sends_nothing (match ?x with _ => _ end) => destruct x
      end ].

Lemma sends_nothing_getitem (s : bytes) (i : Z) : sends_nothing (getitem s i).
Proof. unfold getitem. repeat sends_nothing_step. Qed.

Lemma sends_nothing_KeyDeriver_init (password : bytes) :
  sends_nothing (KeyDeriver_init password).
Proof.
  unfold KeyDeriver_init, SHA256_new_digest. repeat sends_nothing_step.
Qed.

Lemma sends_nothing_simplejson_loads (json : bytes) :
  sends_nothing (simplejson_loads json).
Proof. unfold simplejson_loads. repeat sends_nothing_step. Qed.

Lemma sends_nothing_decrypt (self : KeyDeriver) (env : bytes) :
  sends_nothing (decrypt self env).
Proof.
  unfold decrypt, b64dec, HMAC_new, AES_new_CBC, Crypter_decrypt.
  repeat first [apply sends_nothing_getitem | sends_nothing_step].
Qed.

Lemma getList_requests (user password : bytes) (type : Z) (name : bytes)
    (w : World) :
  requests (getList user password type name w).1
  = requests (challenge_signed password w).1
    ++ [getList_request user password type name w].
Proof.
  unfold getList.
  erewrite bind_ok by apply makeAuthParams_run.
  erewrite bind_ok by apply KeyDeriver_init_run.
  erewrite bind_ok by apply permute_run, crypt_key_ok.
  fold (buildLookupKey password type name).
  erewrite bind_ok by reflexivity.
  fold (getList_request user password type name w).
  set (w3 := send _ _). set (response := server _ _ _).
  change (requests (challenge_signed password w).1
          ++ [getList_request user password type name w])
    with (requests w3).
  generalize w3. change (sends_nothing
    (if bool_decide (status response ≠ 200)
     then raise (LookupError (str "HTTP error: " ++ fmt_d (status response)
                                ++ str " " ++ reason response))
     else
       records ← simplejson_loads (body response);
       keys ← KeyDeriver_init password;
       for_each records (λ record,
         value ← decrypt keys (value record);
         print (fmt_d (version record) ++ str " at "
                  ++ fmt_f (creationTime record) ++ str ": " ++ value)))).
  repeat first [ apply sends_nothing_simplejson_loads
               | apply sends_nothing_KeyDeriver_init
               | apply sends_nothing_decrypt
               | sends_nothing_step ].
Qed.

Lemma add_requests (user password : bytes) (type : Z) (name value : bytes)
    (w : World) :
  ∃ sealed_value,
    requests (add user password type name value w).1
    = requests (challenge_signed password w).1
      ++ [add_request user password type name sealed_value w].
Proof.
  unfold add.
  erewrite bind_ok by apply makeAuthParams_run.
  erewrite bind_ok by apply KeyDeriver_init_run.
  erewrite bind_ok by apply permute_run, crypt_key_ok.
  fold (buildLookupKey password type name).
  erewrite bind_ok by apply encrypt_run, crypt_key_ok.
  eexists.
  erewrite bind_ok by reflexivity.
  reflexivity.
Qed.

(** ** The claims *)

(** C1. For every password and every plaintext, whatever IV [encrypt]
    draws, decrypting what was encrypted under the same password gives the
    plaintext back. *)
Theorem decrypt_encrypt_round_trip (password plain : bytes) (w : World) :
  ∃ w',
    (keys ← KeyDeriver_init password;
     env ← encrypt keys plain;
     decrypt keys env) w = (w', Ok plain).
Proof.
  pose proof (crypt_key_ok password) as Hkey.
  erewrite bind_ok by apply KeyDeriver_init_run.
  erewrite bind_ok by (by apply encrypt_run).
  set (w1 := log_calls _ w). set (iv := drawn_iv w1).
  assert (Hiv : length iv = 16%nat) by apply length_drawn_iv.
  change (b64enc (iv ++ sealed (keys_of password) iv plain))
    with (envelope_of_raw (keys_of password) iv (padded plain)).
  rewrite decrypt_envelope_of_raw by (try done; apply len_padded_mod).
  rewrite strip_padding_padded. by eexists.
Qed.

(** C2. The output of [encrypt] decodes to a 16-byte IV, then the
    ciphertext, then a 16-byte MAC; the ciphertext is [len(m) + pad] bytes
    long with [pad = 16 - len(m) mod 16] in 1..16, it is the CBC encryption
    of [m] followed by [pad] bytes of value [pad], and a block-aligned [m]
    gets sixteen of them. *)
Theorem encrypt_envelope_layout (password plain : bytes) (w : World) :
  let self := keys_of password in
  ∃ env iv ct tag pad w',
    encrypt self plain w = (w', Ok env)
    ∧ urlsafe_b64decode env = Some (iv ++ ct ++ tag)
    ∧ iv = drawn_iv w ∧ length iv = 16%nat ∧ length tag = 16%nat
    ∧ pad = 16 - len plain `mod` 16 ∧ 1 ≤ pad ≤ 16
    ∧ (len plain `mod` 16 = 0 → pad = 16)
    ∧ len ct = len plain + pad
    ∧ (∃ c, ord c = pad
          ∧ ct = cbc_encrypt (length ct / 16) (crypt self) iv
                   (plain ++ replicate (Z.to_nat pad) c))
    ∧ tag = hmac_md5 (mac self) ct.
Proof.
  intros self.
  pose proof (crypt_key_ok password) as Hkey.
  pose proof (length_drawn_iv w) as Hiv.
  pose proof (pad_of_range plain) as Hpad.
  exists (b64enc (drawn_iv w ++ sealed self (drawn_iv w) plain)),
    (drawn_iv w), (ciphertext self (drawn_iv w) plain),
    (hmac_md5 (mac self) (ciphertext self (drawn_iv w) plain)),
    (pad_of plain).
  eexists. split; [by apply encrypt_run|].
  split; [apply urlsafe_b64decode_encode|].
  split; [done|]. split; [done|]. split; [apply hmac_md5_size|].
  split; [done|]. split; [done|].
  split; [unfold pad_of; lia|].
  split; [by apply len_ciphertext|].
  split; [|done].
  exists (ascii_of_N (Z.to_N (pad_of plain))).
  split; [apply ord_chr; lia|].
  rewrite length_ciphertext by done. done.
Qed.

(** C3. For every envelope that decodes to at least 32 bytes, [decrypt]
    computes the MAC of the ciphertext part under the mac key and compares it
    with the last 16 bytes before any use of the block cipher: when they
    differ it fails with [AuthenticationError] having called nothing but the
    MAC, and when they agree the cipher is set up and run only after the
    MAC. *)
Theorem decrypt_verifies_then_decrypts (password env d : bytes) (w : World) :
  let self := keys_of password in
  let ct := ciphertext_part d in
  urlsafe_b64decode env = Some d → 32 ≤ len d →
  (mac_part d ≠ hmac_md5 (mac self) ct →
     decrypt self env w
     = (log_calls [CallHMAC (mac self) ct] w, Raise AuthenticationError))
  ∧ (mac_part d = hmac_md5 (mac self) ct →
     calls (decrypt self env w).1
     = calls w ++ [CallHMAC (mac self) ct;
                   CallAESnew (crypt self) (iv_part d);
                   CallAESdecrypt (crypt self) (iv_part d) ct]).
Proof.
  intros self ct Hdec Hlen. split; intros Hmac.
  - by apply decrypt_mac_mismatch.
  - unfold self. rewrite (decrypt_long_world password env d) by done.
    by rewrite bool_decide_eq_true_2.
Qed.

(** C4, as the code has it. For every envelope that passes the length
    check and the MAC check and whose ciphertext part is a non-empty whole
    number of blocks, [decrypt] reads the last decrypted byte as the pad
    length [c]; it fails with [PaddingError] when one of the [c - 1] bytes
    after the [c]-th from the end differs from [c], and reports
    [PaddingError] only if one of the last [c] bytes differs from [c]; and
    whenever [1 <= c <= len(plaintext)] and each of the last [c] bytes
    equals [c] (no bound of 16 is put on [c]) it strips exactly those [c]
    bytes and returns the rest. *)
Theorem decrypt_padding_check (password env d : bytes) (c : ascii) (w : World) :
  let self := keys_of password in
  let ct := ciphertext_part d in
  let plain := cbc_decrypt (length ct / 16) (crypt self) (iv_part d) ct in
  urlsafe_b64decode env = Some d → 32 ≤ len d →
  mac_part d = hmac_md5 (mac self) ct →
  len ct `mod` 16 = 0 →
  last plain = Some c →
  (∀ k, 1 ≤ k < ord c → k ≤ len plain → from_end plain k ≠ c →
     (decrypt self env w).2 = Raise PaddingError)
  ∧ ((decrypt self env w).2 = Raise PaddingError →
     ∃ k, 1 ≤ k ≤ ord c ∧ k ≤ len plain ∧ from_end plain k ≠ c)
  ∧ (1 ≤ ord c ≤ len plain →
     (∀ k, 1 ≤ k ≤ ord c → from_end plain k = c) →
     (decrypt self env w).2 = Ok (take (Z.to_nat (len plain - ord c)) plain)).
Proof.
  intros self ct plain Hdec Hlen Hmac Hmod Hlast.
  pose proof (crypt_key_ok password) as Hkey.
  pose proof (length_iv_part d Hlen) as Hiv.
  rewrite (decrypt_mac_match self env d) by done.
  rewrite decrypt_verified_run by done.
  fold ct. fold plain. set (w1 := log_calls _ _).
  split; [|split].
  - intros k Hk Hin Hdiff.
    rewrite (strip_padding_rejects plain c); [done | done |].
    exists k. by split.
  - intros Hfail.
    destruct (strip_padding_cases plain c w1 Hlast)
      as [[Hrun _]|[[_ Hex]|[Hrun _]]].
    + by rewrite Hrun in Hfail.
    + destruct Hex as (k & Hk & Hin & Hdiff). exists k.
      split; [lia|]. by split.
    + by rewrite Hrun in Hfail.
  - intros Hc Hall. rewrite strip_padding_accepts with (c := c); [|done|].
    + simpl. f_equal. by apply slice_to_from_end.
    + intros k Hk. split; [lia|]. apply Hall. lia.
Qed.

(** C5. For every input string, [decrypt] fails with [FormatError] exactly
    when the input decodes to fewer than 32 bytes; it does so before
    anything else is computed, the world being left as it was. *)
Theorem decrypt_FormatError_iff_short (password env : bytes) (w : World) :
  let self := keys_of password in
  ((decrypt self env w).2 = Raise FormatError
   ↔ ∃ d, urlsafe_b64decode env = Some d ∧ len d < 32)
  ∧ ((decrypt self env w).2 = Raise FormatError → (decrypt self env w).1 = w).
Proof.
  intros self.
  assert (Hshort : (decrypt self env w).2 = Raise FormatError →
                   ∃ d, urlsafe_b64decode env = Some d ∧ len d < 32).
  { intros Hfail. destruct (urlsafe_b64decode env) as [d|] eqn:Hdec.
    - exists d. split; [done|].
      destruct (decide (len d < 32)) as [Hlen|Hlen]; [done|].
      destruct (decrypt_long_not_FormatError password env d w); [done | lia | done].
    - by rewrite decrypt_undecodable in Hfail. }
  split; [split; [done|] |].
  - intros (d & Hdec & Hlen). by rewrite (decrypt_short self env d).
  - intros Hfail. destruct (Hshort Hfail) as (d & Hdec & Hlen).
    by rewrite (decrypt_short self env d).
Qed.

(** C6, as the code has it. [permute(plain)] is the base64url encoding of
    [encryptWithIV(plain, 0^16)]: the ciphertext and the MAC are those
    [encrypt] computes when the IV it draws is all zero, but the IV is not
    put in front, so the output decodes to ciphertext then MAC; and
    [permute] gives the same output in every world. *)
Theorem permute_zero_iv_sealing (password plain : bytes) (w : World) :
  let self := keys_of password in
  let ct := ciphertext self zero_iv plain in
  let tag := hmac_md5 (mac self) ct in
  ∃ out,
    (permute self plain w).2 = Ok out
    ∧ permute self plain w
      = (sealed ← encryptWithIV self plain zero_iv; mret (b64enc sealed)) w
    ∧ urlsafe_b64decode out = Some (ct ++ tag)
    ∧ length tag = 16%nat
    ∧ zero_iv = replicate 16 zero
    ∧ (∀ w2, drawn_iv w2 = zero_iv → ∃ out2,
         (encrypt self plain w2).2 = Ok out2
         ∧ urlsafe_b64decode out2 = Some (zero_iv ++ ct ++ tag))
    ∧ (∀ w2, (permute self plain w2).2 = Ok out).
Proof.
  intros self ct tag.
  pose proof (crypt_key_ok password) as Hkey.
  exists (b64enc (sealed self zero_iv plain)).
  split; [by rewrite permute_run|].
  split.
  { rewrite permute_run by done.
    by erewrite bind_ok by (by apply encryptWithIV_run). }
  split; [apply urlsafe_b64decode_encode|].
  split; [apply hmac_md5_size|]. split; [done|]. split.
  - intros w2 Hzero. eexists. rewrite encrypt_run by done.
    split; [done|]. rewrite Hzero. apply urlsafe_b64decode_encode.
  - intros w2. by rewrite permute_run.
Qed.

(** C7. [getList] and [add] send, as the name of the resource, the lookup
    key [permute(int2bin(type) ‖ name)]; under one password the key of a
    pair [(type, name)] is the same in every world, and a pair that differs
    in the name or in the type (both types within the width of [int2bin])
    has a different key. *)
Theorem lookup_key_construction_and_stability
    (user password name value : bytes) (type : Z) (w : World) :
  let plain := int2bin type ++ name in
  let key := buildLookupKey password type name in
  concat [int2bin type; name] = plain
  ∧ (∀ w', (permute (keys_of password) plain w').2 = Ok key)
  ∧ (∃ w1 params,
       makeAuthParams user password w = (w1, Ok params)
       ∧ (∃ rq,
            requests (getList user password type name w).1
            = requests w1 ++ [rq]
            ∧ req_url rq
              = str "/list-resource?" ++ urlencode (<["name" := key]> params))
       ∧ (∃ rq sealed_value,
            requests (add user password type name value w).1
            = requests w1 ++ [rq]
            ∧ req_body rq
              = Some (urlencode (<["value" := sealed_value]>
                                   (<["name" := key]> params)))))
  ∧ (∀ type' name',
       0 ≤ type < 256 ^ Z.of_nat int2bin_width →
       0 ≤ type' < 256 ^ Z.of_nat int2bin_width →
       (type', name') ≠ (type, name) →
       buildLookupKey password type' name' ≠ key).
Proof.
  intros plain key.
  assert (Hplain : concat [int2bin type; name] = plain).
  { unfold concat, plain. simpl. by rewrite app_nil_r. }
  split; [done|]. split.
  { intros w'. rewrite permute_run by apply crypt_key_ok.
    unfold key, buildLookupKey. by rewrite Hplain. }
  split.
  { exists (challenge_signed password w).1, (challenge_params user password w).
    split; [apply makeAuthParams_run|]. split.
    - exists (getList_request user password type name w).
      split; [apply getList_requests | done].
    - destruct (add_requests user password type name value w)
        as [sealed_value Hadd].
      exists (add_request user password type name sealed_value w), sealed_value.
      by split. }
  intros type' name' Ht Ht' Hne Heq. apply Hne.
  destruct (buildLookupKey_inj password type' type name' name) as [-> ->];
    done.
Qed.

(** C8. Constructing a [KeyDeriver] from a password sets
    [crypt = H(password)], [mac = H(crypt)], [authenticate = H(mac)] with
    [H] the 32-byte hash; the triple is the same in every world, so the
    same password always gives the same keys. *)
Theorem KeyDeriver_init_chain (password : bytes) (w : World) :
  ∃ self w',
    KeyDeriver_init password w = (w', Ok self)
    ∧ crypt self = sha256 password
    ∧ mac self = sha256 (crypt self)
    ∧ authenticate self = sha256 (mac self)
    ∧ length (crypt self) = 32%nat
    ∧ length (mac self) = 32%nat
    ∧ length (authenticate self) = 32%nat
    ∧ ∀ w2, (KeyDeriver_init password w2).2 = Ok self.
Proof.
  exists (keys_of password). eexists.
  split; [apply KeyDeriver_init_run|].
  do 3 (split; [reflexivity|]).
  do 3 (split; [apply sha256_size|]).
  intros w2. by rewrite KeyDeriver_init_run.
Qed.

(** C9. For every user and password, [makeAuthParams] builds [t] as the
    decimal Unix time in whole seconds, a colon, and a 20-bit integer read
    from bytes of the system's secure random source that no earlier draw has
    used; it has the signer bound to the [authenticate] key sign exactly
    [t], getting [(e, s)], and returns
    [{user, t, e: base64url(e), s: base64url(s)}]. *)
Theorem makeAuthParams_challenge (user password : bytes) (w : World) :
  let secs := int_of_float (clock w) in
  let raw := map (urandom w) (seq (urandom_pos w) 3) in
  let r := Z.shiftr (int_of_bytes raw) 4 in
  let t := fmt_d secs ++ str ":" ++ fmt_d r in
  let w1 := log_calls (KeyDeriver_init_calls password) (use_urandom 3 w) in
  let signed := schnorr_sign (authenticate (keys_of password)) t w1 in
  0 ≤ r < 2 ^ 20
  ∧ urandom_pos w1 = (urandom_pos w + 3)%nat
  ∧ sign (schnorr (keys_of password)) t w1 = (signed.1, Ok signed.2)
  ∧ makeAuthParams user password w
    = (signed.1,
       Ok {[ "user" := user; "t" := t;
             "e" := b64enc signed.2.1; "s" := b64enc signed.2.2 ]}).
Proof.
  intros secs raw r t w1 signed.
  split; [apply challenge_nonce_range|]. split; [done|]. split.
  - unfold sign, schnorr, signed; simpl signer_key; simpl authenticate.
    by destruct (schnorr_sign _ _ _) as [w' es].
  - apply makeAuthParams_run.
Qed.

(** C10. A decoded envelope of exactly 32 bytes is not rejected as too
    short; its ciphertext part is empty, and when its last 16 bytes are the
    MAC of the empty string the read of the last plaintext character fails
    with an index error, which is none of [FormatError],
    [AuthenticationError] and [PaddingError]. *)
Theorem decrypt_empty_ciphertext (password env d : bytes) (w : World) :
  let self := keys_of password in
  urlsafe_b64decode env = Some d → len d = 32 →
  mac_part d = hmac_md5 (mac self) [] →
  ciphertext_part d = []
  ∧ ∃ w' e,
      decrypt self env w = (w', Raise e)
      ∧ e = IndexError "string index out of range"
      ∧ e ≠ FormatError ∧ e ≠ AuthenticationError ∧ e ≠ PaddingError.
Proof.
  intros self Hdec Hlen Hmac.
  pose proof (crypt_key_ok password) as Hkey.
  assert (Hct : ciphertext_part d = []).
  { unfold ciphertext_part, slice. rewrite Hlen. by rewrite take_0. }
  split; [done|].
  rewrite (decrypt_mac_match self env d) by (rewrite ?Hct; first [done | lia]).
  rewrite Hct, decrypt_verified_run
    by (first [done | apply length_iv_part; lia]).
  simpl cbc_decrypt. rewrite strip_padding_empty.
  do 2 eexists. split; [done|]. by repeat split.
Qed.

End Facts.

(** ** Further properties of [decrypt] *)

(** A computation that neither reads nor changes the world. *)
Definition pure_in_world {A} (m : M A) : Prop :=
  ∀ w w', m w = (w, (m w').2).

Lemma pure_in_world_mret {A} (a : A) : pure_in_world (mret a).
Proof. by intros w w'. Qed.

Lemma pure_in_world_raise {A} (e : exn) : pure_in_world (raise (A := A) e).
Proof. by intros w w'. Qed.

Lemma pure_in_world_bind {A B} (m : M A) (k : A → M B) :
  pure_in_world m → (∀ a, pure_in_world (k a)) → pure_in_world (m ≫= k).
Proof.
  intros Hm Hk w w'. unfold mbind, M_bind.
  pose proof (Hm w w') as Hw. pose proof (Hm w' w') as Hw'.
  destruct (m w') as [w1 o] eqn:Hrun. simpl in Hw, Hw'.
  injection Hw' as ->. rewrite Hw.
  destruct o as [a|e]; simpl; [apply Hk | done].
Qed.

Lemma pure_in_world_for_each {A} (xs : list A) (body : A → M unit) :
  (∀ x, pure_in_world (body x)) → pure_in_world (for_each xs body).
Proof.
  intros Hbody. induction xs as [|x xs IH]; [by intros w w'|].
  simpl. apply pure_in_world_bind; [apply Hbody | done].
Qed.

Lemma pure_in_world_getitem (s : bytes) (i : Z) : pure_in_world (getitem s i).
Proof.
  unfold getitem. destruct (_ && _);
    [apply pure_in_world_mret | apply pure_in_world_raise].
Qed.

Lemma pure_in_world_strip_padding (plain : bytes) :
  pure_in_world (strip_padding plain).
Proof.
  unfold strip_padding, padding_turn.
  apply pure_in_world_bind; [apply pure_in_world_getitem|]. intros c.
  apply pure_in_world_bind; [|intros []; apply pure_in_world_mret].
  apply pure_in_world_for_each. intros i.
  apply pure_in_world_bind; [apply pure_in_world_getitem|]. intros x.
  destruct (bool_decide _);
    [apply pure_in_world_raise | apply pure_in_world_mret].
Qed.

Section DecryptFurther.
Context {L : Libs}.

(** An envelope that passes both checks and holds whole blocks reaches the
    padding with the CBC decryption of its ciphertext part. *)
Lemma decrypt_reaches_padding (password env d : bytes) (w : World) :
  let self := keys_of password in
  let ct := ciphertext_part d in
  urlsafe_b64decode env = Some d → 32 ≤ len d →
  mac_part d = hmac_md5 (mac self) ct →
  len ct `mod` 16 = 0 →
  decrypt self env w
  = strip_padding (cbc_decrypt (length ct / 16) (crypt self) (iv_part d) ct)
      (log_calls (decrypt_calls self (iv_part d) ct) w).
Proof.
  intros self ct Hdec Hlen Hmac Hmod.
  rewrite (decrypt_mac_match self env d) by done.
  rewrite decrypt_verified_run
    by (done || apply crypt_key_ok || by apply length_iv_part).
  by rewrite log_calls_app.
Qed.

(** X1. The exact test [decrypt] puts the padding to: with [c] the last
    plaintext byte, it succeeds exactly when the places 1 to [c - 1] from
    the end exist and hold [c] -- the [c]-th place from the end is not
    looked at -- and it then returns [plain[:-c]]. *)
Theorem decrypt_accepts_iff (password env d r : bytes) (c : ascii) (w : World) :
  let self := keys_of password in
  let ct := ciphertext_part d in
  let plain := cbc_decrypt (length ct / 16) (crypt self) (iv_part d) ct in
  urlsafe_b64decode env = Some d → 32 ≤ len d →
  mac_part d = hmac_md5 (mac self) ct →
  len ct `mod` 16 = 0 →
  last plain = Some c →
  (decrypt self env w).2 = Ok r
  ↔ (∀ k, 1 ≤ k < ord c → k ≤ len plain ∧ from_end plain k = c)
    ∧ r = slice_to plain (- ord c).
Proof.
  intros self ct plain Hdec Hlen Hmac Hmod Hlast.
  unfold self. rewrite (decrypt_reaches_padding password env d) by done.
  fold self ct plain. set (w1 := log_calls _ _). split.
  - intros Hrun.
    destruct (strip_padding_cases plain c w1 Hlast)
      as [[Hok Hall]|[[Hbad _]|[Hbad _]]].
    + rewrite Hok in Hrun. simpl in Hrun. injection Hrun as <-. by split.
    + by rewrite Hbad in Hrun.
    + by rewrite Hbad in Hrun.
  - intros [Hall ->]. by rewrite (strip_padding_accepts plain c).
Qed.

(** X2. A plaintext whose last byte is zero is not refused: the loop has
    no turn to make and [plain[:-0]] is the empty string, so [decrypt]
    returns [""] whatever came before the zero. *)
Theorem decrypt_zero_last_byte (password env d : bytes) (w : World) :
  let self := keys_of password in
  let ct := ciphertext_part d in
  let plain := cbc_decrypt (length ct / 16) (crypt self) (iv_part d) ct in
  urlsafe_b64decode env = Some d → 32 ≤ len d →
  mac_part d = hmac_md5 (mac self) ct →
  len ct `mod` 16 = 0 →
  last plain = Some zero →
  (decrypt self env w).2 = Ok [].
Proof.
  intros self ct plain Hdec Hlen Hmac Hmod Hlast.
  unfold self. rewrite (decrypt_reaches_padding password env d) by done.
  fold self ct plain.
  rewrite (strip_padding_accepts plain zero); [done | done |].
  intros k Hk. change (ord zero) with 0 in Hk. lia.
Qed.

(** X3. [decrypt] ends in an index error exactly when there is no
    plaintext at all, or when every plaintext byte equals the last one, [c],
    and [c] is more than the length of the plaintext plus one: the loop then
    walks off the front of the string. *)
Theorem decrypt_IndexError_iff (password env d : bytes) (w : World) :
  let self := keys_of password in
  let ct := ciphertext_part d in
  let plain := cbc_decrypt (length ct / 16) (crypt self) (iv_part d) ct in
  urlsafe_b64decode env = Some d → 32 ≤ len d →
  mac_part d = hmac_md5 (mac self) ct →
  len ct `mod` 16 = 0 →
  (decrypt self env w).2 = Raise (IndexError "string index out of range")
  ↔ plain = []
    ∨ ∃ c, last plain = Some c ∧ len plain + 1 < ord c
           ∧ ∀ k, 1 ≤ k ≤ len plain → from_end plain k = c.
Proof.
  intros self ct plain Hdec Hlen Hmac Hmod.
  unfold self. rewrite (decrypt_reaches_padding password env d) by done.
  fold self ct plain. set (w1 := log_calls _ _).
  destruct (last plain) as [c|] eqn:Hlast.
  2: { apply last_None in Hlast. rewrite Hlast. split; [by left | done]. }
  assert (Hne : plain ≠ []) by (by intros ->).
  split.
  - intros Hrun. right. exists c. split; [done|].
    destruct (strip_padding_cases plain c w1 Hlast)
      as [[Hok _]|[[Hbad _]|[_ (k' & Hk' & Hout)]]].
    + by rewrite Hok in Hrun.
    + by rewrite Hbad in Hrun.
    + split; [lia|]. intros k Hk.
      destruct (decide (from_end plain k = c)) as [|Hdiff]; [done|].
      rewrite (strip_padding_rejects plain c) in Hrun; [done | done |].
      exists k. split; [lia|]. split; [lia | done].
  - intros [->|(c' & Hlast' & Hlong & Hall)]; [done|].
    injection Hlast' as <-.
    pose proof (len_nonneg plain) as Hpos.
    destruct (strip_padding_cases plain c w1 Hlast)
      as [[_ Hok]|[[_ (k & Hk & Hin & Hdiff)]|[Hrun _]]].
    + destruct (Hok (len plain + 1)); lia.
    + destruct Hdiff. apply Hall. lia.
    + by rewrite Hrun.
Qed.

(** X4. [decrypt] does not look at the length of the ciphertext part
    itself: when that part is not a whole number of blocks, the MAC is
    checked and the cipher set up first, and the failure is the cipher's
    own [ValueError], none of the three that [decrypt] raises. *)
Theorem decrypt_misaligned_ciphertext (password env d : bytes) (w : World) :
  let self := keys_of password in
  let ct := ciphertext_part d in
  urlsafe_b64decode env = Some d → 32 ≤ len d →
  mac_part d = hmac_md5 (mac self) ct →
  len ct `mod` 16 ≠ 0 →
  ∃ e,
    decrypt self env w
    = (log_calls (decrypt_calls self (iv_part d) ct) w, Raise e)
    ∧ e = ValueError "Input strings must be a multiple of 16 in length"
    ∧ e ≠ FormatError ∧ e ≠ AuthenticationError ∧ e ≠ PaddingError.
Proof.
  intros self ct Hdec Hlen Hmac Hmod. eexists. split; [|by repeat split].
  rewrite (decrypt_mac_match self env d) by done.
  rewrite decrypt_verified_misaligned
    by (done || apply crypt_key_ok || by apply length_iv_part).
  by rewrite log_calls_app.
Qed.

(** Whatever the world, [decrypt] ends the same way. *)
Lemma decrypt_outcome_any_world (password env : bytes) (w w' : World) :
  (decrypt (keys_of password) env w).2 = (decrypt (keys_of password) env w').2.
Proof.
  set (self := keys_of password).
  destruct (urlsafe_b64decode env) as [d|] eqn:Hdec.
  2: { by rewrite !decrypt_undecodable. }
  destruct (decide (len d < 32)) as [Hshort|Hlong].
  { by rewrite !(decrypt_short self env d). }
  assert (Hlen : 32 ≤ len d) by lia.
  destruct (decide (mac_part d = hmac_md5 (mac self) (ciphertext_part d)))
    as [Hmac|Hmac].
  2: { by rewrite !(decrypt_mac_mismatch self env d). }
  destruct (decide (len (ciphertext_part d) `mod` 16 = 0)) as [Hmod|Hmod].
  - unfold self. rewrite !(decrypt_reaches_padding password env d) by done.
    set (plain := cbc_decrypt _ _ _ _).
    by rewrite (pure_in_world_strip_padding plain _ w),
      (pure_in_world_strip_padding plain (log_calls _ w') w).
  - rewrite !(decrypt_mac_match self env d) by done.
    by rewrite !decrypt_verified_misaligned
      by (done || apply crypt_key_ok || by apply length_iv_part).
Qed.

(** X5. What [decrypt] can do: it changes nothing in the world but the
    record of at most three library calls, it ends the same way in every
    world, and when it fails it is with one of six exceptions -- the three
    it raises itself, the decoder's [TypeError], the cipher's [ValueError]
    and an index error. *)
Theorem decrypt_outcomes (password env : bytes) (w : World) :
  let self := keys_of password in
  (∃ cs, (decrypt self env w).1 = log_calls cs w ∧ (length cs ≤ 3)%nat)
  ∧ (∀ w', (decrypt self env w').2 = (decrypt self env w).2)
  ∧ (∀ e, (decrypt self env w).2 = Raise e →
       e = TypeError "Incorrect padding"
       ∨ e = FormatError ∨ e = AuthenticationError
       ∨ e = ValueError "Input strings must be a multiple of 16 in length"
       ∨ e = IndexError "string index out of range"
       ∨ e = PaddingError).
Proof.
  intros self. split; [|split].
  - destruct (urlsafe_b64decode env) as [d|] eqn:Hdec.
    2: { exists []. rewrite decrypt_undecodable by done.
         by rewrite log_calls_nil; simpl; split; [|lia]. }
    destruct (decide (len d < 32)) as [Hshort|Hlong].
    { exists []. rewrite (decrypt_short self env d) by done.
      by rewrite log_calls_nil; simpl; split; [|lia]. }
    eexists. split; [apply (decrypt_long_world password env d); [done | lia]|].
    case_bool_decide; simpl; lia.
  - intros w'. apply decrypt_outcome_any_world.
  - intros e Hrun.
    destruct (urlsafe_b64decode env) as [d|] eqn:Hdec.
    2: { rewrite decrypt_undecodable in Hrun by done.
         injection Hrun as <-. by left. }
    destruct (decide (len d < 32)) as [Hshort|Hlong].
    { rewrite (decrypt_short self env d) in Hrun by done.
      injection Hrun as <-. right; by left. }
    assert (Hlen : 32 ≤ len d) by lia.
    destruct (decide (mac_part d = hmac_md5 (mac self) (ciphertext_part d)))
      as [Hmac|Hmac].
    2: { rewrite (decrypt_mac_mismatch self env d) in Hrun by done.
         injection Hrun as <-. right; right; by left. }
    destruct (decide (len (ciphertext_part d) `mod` 16 = 0)) as [Hmod|Hmod].
    + unfold self in Hrun.
      rewrite (decrypt_reaches_padding password env d) in Hrun by done.
      set (plain := cbc_decrypt _ _ _ _) in Hrun.
      set (w1 := log_calls _ _) in Hrun.
      destruct (last plain) as [c|] eqn:Hlast.
      * destruct (strip_padding_cases plain c w1 Hlast)
          as [[Hok _]|[[Hbad _]|[Hbad _]]]; rewrite ?Hok, ?Hbad in Hrun;
          [done | |]; injection Hrun as <-; tauto.
      * apply last_None in Hlast. rewrite Hlast in Hrun.
        injection Hrun as <-. tauto.
    + rewrite (decrypt_mac_match self env d) in Hrun by done.
      rewrite decrypt_verified_misaligned in Hrun
        by (done || apply crypt_key_ok || by apply length_iv_part).
      injection Hrun as <-. tauto.
Qed.

End DecryptFurther.

(** ** Further properties of [encrypt] and [permute] *)

Section SealingFurther.
Context {L : Libs}.

(** Decrypted under another IV, a CBC ciphertext gives the plaintext with
    its first block xored by both IVs. *)
Lemma cbc_decrypt_other_iv (n : nat) (key iv iv' data : bytes) :
  aes_key_ok key = true → length iv = 16%nat → length iv' = 16%nat →
  length data = (16 * S n)%nat →
  cbc_decrypt (S n) key iv' (cbc_encrypt (S n) key iv data)
  = strxor (strxor (take 16 data) iv) iv' ++ drop 16 data.
Proof.
  intros Hkey Hiv Hiv' Hdata. cbn [cbc_encrypt cbc_decrypt].
  assert (Hblock : length (strxor (take 16 data) iv) = 16%nat).
  { rewrite length_strxor, length_take. lia. }
  set (block := aes_block_encrypt key (strxor (take 16 data) iv)).
  assert (Hsize : length block = 16%nat)
    by (by apply aes_block_encrypt_size).
  rewrite take_app_length', drop_app_length' by done.
  unfold block at 1. rewrite aes_block_decrypt_encrypt by done.
  rewrite cbc_decrypt_encrypt; [done | done | done |].
  rewrite length_drop. lia.
Qed.

(** X6. The MAC does not cover the IV.  Put any other sixteen bytes in
    place of the IV of an envelope of a plaintext of sixteen bytes or more:
    the MAC check passes, and [decrypt] returns the plaintext with its first
    sixteen bytes xored by the old IV and by the new one, the rest as it
    was. *)
Theorem decrypt_under_other_iv (password plain iv iv' : bytes) (w : World) :
  let self := keys_of password in
  length iv = 16%nat → length iv' = 16%nat → 16 ≤ len plain →
  (decrypt self (b64enc (iv' ++ sealed self iv plain)) w).2
  = Ok (strxor (strxor (take 16 plain) iv) iv' ++ drop 16 plain).
Proof.
  intros self Hiv Hiv' Hlong.
  pose proof (crypt_key_ok password) as Hkey.
  pose proof (pad_of_range plain) as Hpad.
  set (ct := ciphertext self iv plain).
  set (tag := hmac_md5 (mac self) ct).
  destruct (envelope_parts iv' ct tag Hiv' (hmac_md5_size _ _))
    as (Hlen & Hivp & Hctp & Hmacp).
  assert (Hct : length ct = length (padded plain))
    by (by apply length_ciphertext).
  assert (Hmod : len ct `mod` 16 = 0)
    by (unfold len; rewrite Hct; apply len_padded_mod).
  unfold sealed. fold ct tag. subst self.
  rewrite (decrypt_reaches_padding password _ (iv' ++ ct ++ tag));
    [| apply urlsafe_b64decode_encode | done
     | by rewrite Hctp, Hmacp | by rewrite Hctp].
  rewrite Hivp, Hctp, Hct. set (self := keys_of password) in *.
  set (plain' := strxor (strxor (take 16 plain) iv) iv' ++ drop 16 plain).
  assert (Hlen' : length plain' = length plain).
  { unfold plain'. rewrite length_app, !length_strxor, length_take, length_drop.
    unfold len in Hlong. lia. }
  assert (Hpadded : cbc_decrypt (length (padded plain) / 16) (crypt self) iv' ct
                    = padded plain').
  { pose proof (length_padded_blocks plain) as Hblocks.
    pose proof (len_padded plain) as Hlp. unfold len in Hlp, Hlong.
    destruct (length (padded plain) / 16)%nat as [|n] eqn:Hn; [lia|].
    unfold ct, ciphertext. rewrite Hn.
    rewrite cbc_decrypt_other_iv by done.
    assert (Hpo : pad_of plain' = pad_of plain)
      by (unfold pad_of, len; by rewrite Hlen').
    unfold padded. rewrite Hpo.
    rewrite take_app_le, drop_app_le by lia.
    unfold plain'. by rewrite <- app_assoc. }
  rewrite Hpadded, strip_padding_padded. done.
Qed.

(** X7. Two encryptions in a row of one plaintext use the two 16-byte
    stretches of entropy that follow one another; the two outputs are the
    same only if those stretches are, and each decrypts to the plaintext. *)
Theorem encrypt_twice (password plain : bytes) (w : World) :
  let self := keys_of password in
  let iv1 := drawn_iv w in
  let iv2 := drawn_iv (use_entropy 16 w) in
  ∃ out1 out2 w',
    (out1 ← encrypt self plain; out2 ← encrypt self plain;
     mret (out1, out2)) w = (w', Ok (out1, out2))
    ∧ entropy_pos w' = (entropy_pos w + 32)%nat
    ∧ urlsafe_b64decode out1 = Some (iv1 ++ sealed self iv1 plain)
    ∧ urlsafe_b64decode out2 = Some (iv2 ++ sealed self iv2 plain)
    ∧ (out1 = out2 ↔ iv1 = iv2)
    ∧ ∀ w2, (decrypt self out1 w2).2 = Ok plain
            ∧ (decrypt self out2 w2).2 = Ok plain.
Proof.
  intros self iv1 iv2.
  pose proof (crypt_key_ok password) as Hkey.
  assert (Hiv1 : length iv1 = 16%nat) by apply length_drawn_iv.
  assert (Hiv2 : length iv2 = 16%nat) by apply length_drawn_iv.
  exists (b64enc (iv1 ++ sealed self iv1 plain)),
    (b64enc (iv2 ++ sealed self iv2 plain)).
  eexists. split.
  { erewrite bind_ok by (by apply encrypt_run).
    erewrite bind_ok by (by apply encrypt_run). reflexivity. }
  split; [simpl; lia|].
  split; [apply urlsafe_b64decode_encode|].
  split; [apply urlsafe_b64decode_encode|]. split.
  - split; [|by intros ->].
    intros Heq. apply b64enc_inj in Heq.
    apply app_inj_1 in Heq as [Heq _]; [done | by rewrite Hiv1, Hiv2].
  - intros w2.
    change (b64enc (iv1 ++ sealed self iv1 plain))
      with (envelope_of_raw self iv1 (padded plain)).
    change (b64enc (iv2 ++ sealed self iv2 plain))
      with (envelope_of_raw self iv2 (padded plain)).
    rewrite !decrypt_envelope_of_raw by (try done; apply len_padded_mod).
    by rewrite !strip_padding_padded.
Qed.

(** X8. [permute] keeps plaintexts apart: under one password two
    plaintexts have the same output, in whatever worlds, exactly when they
    are the same plaintext. *)
Theorem permute_injective (password x y : bytes) (w w' : World) :
  (permute (keys_of password) x w).2 = (permute (keys_of password) y w').2
  ↔ x = y.
Proof.
  pose proof (crypt_key_ok password) as Hkey.
  rewrite !permute_run by done. cbn [snd]. split; [|by intros ->].
  intros Heq.
  apply (f_equal (λ r, match r with Ok out => out | Raise _ => [] end)) in Heq.
  cbv beta iota in Heq. apply b64enc_inj in Heq.
  by apply sealed_inj in Heq.
Qed.

End SealingFurther.

(** ** The commands *)

Lemma emit_emit (l1 l2 : list bytes) (w : World) :
  emit l2 (emit l1 w) = emit (l1 ++ l2) w.
Proof. unfold emit; simpl. by rewrite <- app_assoc. Qed.

Section CommandsFacts.
Context {L : Libs}.

Lemma do_auth_run (params : gmap string bytes) (w : World) :
  let response := server w (requests w) (auth_request params) in
  do_auth params w
  = (emit [status_line response; body response] (send (auth_request params) w),
     Ok tt).
Proof.
  intros response. unfold do_auth.
  erewrite bind_ok by reflexivity.
  erewrite bind_ok by reflexivity.
  unfold print. by rewrite emit_emit.
Qed.

(** X9. [authenticate] makes one challenge and sends it twice: the two
    requests are the same request, the second being answered by a server
    that has seen the first, and nothing is drawn or computed in between. *)
Theorem authenticate_sends_one_challenge_twice (user password : bytes)
    (w : World) :
  let w1 := (challenge_signed password w).1 in
  let rq := auth_request (challenge_params user password w) in
  let first := server w1 (requests w1) rq in
  let second := server w1 (requests w1 ++ [rq]) rq in
  ∃ w',
    authenticate_user user password w = (w', Ok tt)
    ∧ requests w' = requests w1 ++ [rq; rq]
    ∧ stdout w'
      = stdout w1 ++ [status_line first; body first;
                      str "Replaying: this should fail";
                      status_line second; body second]
    ∧ calls w' = calls w1
    ∧ urandom_pos w' = urandom_pos w1 ∧ entropy_pos w' = entropy_pos w1.
Proof.
  intros w1 rq first second. unfold authenticate_user.
  erewrite bind_ok by apply makeAuthParams_run. fold w1.
  erewrite bind_ok by apply do_auth_run.
  erewrite bind_ok by reflexivity.
  rewrite do_auth_run. eexists. split; [reflexivity|].
  simpl. rewrite <- !app_assoc. by repeat split.
Qed.

(** X10. [register] derives the keys, draws nothing, and sends one request:
    the user and the public key of the very key with which
    [makeAuthParams] has the challenge signed, the [authenticate] key; it
    then prints the status line and the body of the answer. *)
Theorem register_publishes_challenge_key (user password : bytes) (w : World) :
  let key := authenticate (keys_of password) in
  let rq := register_request user password in
  let response := server w (requests w) rq in
  (∃ w',
     register user password w = (w', Ok tt)
     ∧ requests w' = requests w ++ [rq]
     ∧ req_body rq
       = Some (urlencode ({[ "user" := user;
                             "publicKey" := b64enc (schnorr_public key) ]}
                            : gmap string bytes))
     ∧ stdout w' = stdout w ++ [status_line response; body response]
     ∧ calls w' = calls w ++ KeyDeriver_init_calls password
     ∧ urandom_pos w' = urandom_pos w ∧ entropy_pos w' = entropy_pos w)
  ∧ ∀ user2 w2, ∃ params,
      (makeAuthParams user2 password w2).2 = Ok params
      ∧ params !! "e"
        = Some (b64enc (schnorr_sign key (challenge_t w2)
                          (log_calls (KeyDeriver_init_calls password)
                             (use_urandom 3 w2))).2.1)
      ∧ params !! "s"
        = Some (b64enc (schnorr_sign key (challenge_t w2)
                          (log_calls (KeyDeriver_init_calls password)
                             (use_urandom 3 w2))).2.2).
Proof.
  intros key rq response. split.
  - unfold register.
    erewrite bind_ok by apply KeyDeriver_init_run.
    erewrite bind_ok by reflexivity.
    erewrite bind_ok by reflexivity.
    eexists. split; [reflexivity|].
    simpl. rewrite <- !app_assoc. by repeat split.
  - intros user2 w2. exists (challenge_params user2 password w2).
    rewrite makeAuthParams_run. by repeat split.
Qed.

Lemma getList_run (user password : bytes) (type : Z) (name : bytes)
    (w : World) :
  let w1 := (challenge_signed password w).1 in
  let rq := getList_request user password type name w in
  getList user password type name w
  = getList_listing password (server w1 (requests w1) rq)
      (send rq (log_calls (lookup_calls password type name) w1)).
Proof.
  intros w1 rq. unfold getList.
  erewrite bind_ok by apply makeAuthParams_run.
  erewrite bind_ok by apply KeyDeriver_init_run.
  erewrite bind_ok by apply permute_run, crypt_key_ok.
  fold (buildLookupKey password type name).
  erewrite bind_ok by reflexivity.
  rewrite log_calls_app. reflexivity.
Qed.

(** X11. When the server answers [list-resource] with a status other than
    200, [getList] raises [LookupError] with the status and the reason,
    having printed nothing and decrypted nothing: the only library calls
    are those that derive the keys and build the lookup key. *)
Theorem getList_http_error (user password name : bytes) (type : Z) (w : World) :
  let w1 := (challenge_signed password w).1 in
  let rq := getList_request user password type name w in
  let response := server w1 (requests w1) rq in
  status response ≠ 200 →
  ∃ w',
    getList user password type name w
    = (w', Raise (LookupError (str "HTTP error: " ++ fmt_d (status response)
                                 ++ str " " ++ reason response)))
    ∧ stdout w' = stdout w1
    ∧ requests w' = requests w1 ++ [rq]
    ∧ calls w' = calls w1 ++ lookup_calls password type name.
Proof.
  intros w1 rq response Hstatus. rewrite getList_run.
  fold w1 rq response. unfold getList_listing.
  rewrite bool_decide_eq_true_2 by done.
  eexists. split; [reflexivity|]. by repeat split.
Qed.

(** [decrypt] leaves the world as it was but for the record of its calls. *)
Lemma decrypt_world_log (password env : bytes) (w : World) :
  ∃ cs, (decrypt (keys_of password) env w).1 = log_calls cs w.
Proof.
  destruct (urlsafe_b64decode env) as [d|] eqn:Hdec.
  - destruct (decide (len d < 32)) as [Hshort|Hlong].
    + exists []. rewrite (decrypt_short _ env d) by done.
      by rewrite log_calls_nil.
    + eexists. apply (decrypt_long_world password env d); [done | lia].
  - exists []. rewrite decrypt_undecodable by done. by rewrite log_calls_nil.
Qed.

(** The loop of [getList] over records that all decrypt prints a line for
    each, in order, and goes on. *)
Lemma listing_loop (password : bytes) (vals : JsonRecord → bytes)
    (good rest : list JsonRecord) (w0 w : World) :
  let body := λ record : JsonRecord,
    value ← decrypt (keys_of password) (value record);
    print (fmt_d (version record) ++ str " at "
             ++ fmt_f (creationTime record) ++ str ": " ++ value) in
  (∀ r, r ∈ good → (decrypt (keys_of password) (value r) w0).2 = Ok (vals r)) →
  ∃ w',
    for_each (good ++ rest) body w = for_each rest body w'
    ∧ stdout w' = stdout w ++ map (λ r, listing_line r (vals r)) good
    ∧ requests w' = requests w.
Proof.
  cbv zeta. revert w.
  induction good as [|r good IH]; intros w Hgood.
  - exists w. simpl. by rewrite app_nil_r.
  - destruct (decrypt_world_log password (value r) w) as [cs Hworld].
    assert (Hrun : decrypt (keys_of password) (value r) w
                   = (log_calls cs w, Ok (vals r))).
    { pose proof (decrypt_outcome_any_world password (value r) w w0) as Hsame.
      rewrite (Hgood r) in Hsame by left.
      destruct (decrypt (keys_of password) (value r) w) as [wd o].
      simpl in Hworld, Hsame. by subst. }
    destruct (IH (emit [listing_line r (vals r)] (log_calls cs w)))
      as (w' & Hloop & Hout & Hreq).
    { intros r' Hr'. apply Hgood. by right. }
    exists w'. split; [|split].
    + simpl.
      erewrite bind_ok by (erewrite bind_ok by exact Hrun; reflexivity).
      exact Hloop.
    + rewrite Hout. simpl. by rewrite <- app_assoc.
    + by rewrite Hreq.
Qed.

(** X12. When the answer is a 200 and its body a list of records,
    [getList] prints one line for each record, in order, as long as the
    values decrypt; at the first value that does not, it stops with the
    exception [decrypt] raised, the later records unread. *)
Theorem getList_lists_until_failure (user password name : bytes) (type : Z)
    (good rest : list JsonRecord) (vals : JsonRecord → bytes) (w : World) :
  let self := keys_of password in
  let w1 := (challenge_signed password w).1 in
  let response :=
    server w1 (requests w1) (getList_request user password type name w) in
  status response = 200 →
  json_loads (body response) = Some (good ++ rest) →
  (∀ r, r ∈ good → (decrypt self (value r) w).2 = Ok (vals r)) →
  (∀ bad, head rest = Some bad → ∃ e, (decrypt self (value bad) w).2 = Raise e) →
  stdout (getList user password type name w).1
  = stdout w1 ++ map (λ r, listing_line r (vals r)) good
  ∧ (getList user password type name w).2
    = match rest with
      | [] => Ok tt
      | bad :: _ =>
          match (decrypt self (value bad) w).2 with
          | Raise e => Raise e
          | Ok _ => Ok tt
          end
      end.
Proof.
  intros self w1 response Hstatus Hjson Hgood Hbad. subst self.
  rewrite getList_run. fold w1 response. unfold getList_listing.
  rewrite bool_decide_eq_false_2 by (by intros []).
  erewrite bind_ok by (unfold simplejson_loads; by rewrite Hjson).
  erewrite bind_ok by apply KeyDeriver_init_run.
  set (w2 := log_calls _ (send _ _)).
  destruct (listing_loop password vals good rest w w2 Hgood)
    as (w' & Hloop & Hout & _).
  rewrite Hloop. change (stdout w2) with (stdout w1) in Hout.
  rewrite <- Hout. clear Hloop Hout.
  destruct rest as [|bad rest]; [done|].
  destruct (Hbad bad eq_refl) as [e He]. rewrite He.
  destruct (decrypt_world_log password (value bad) w') as [cs Hworld].
  assert (Hrun : decrypt (keys_of password) (value bad) w'
                 = (log_calls cs w', Raise e)).
  { pose proof (decrypt_outcome_any_world password (value bad) w' w) as Hsame.
    rewrite He in Hsame.
    destruct (decrypt (keys_of password) (value bad) w') as [wd o].
    simpl in Hworld, Hsame. by subst. }
  simpl.
  erewrite bind_raise by (erewrite bind_raise by exact Hrun; reflexivity).
  done.
Qed.

(** X13. [add] sends one request; the value it carries is an envelope
    that decrypts, under the same password, to the value given, made with
    the next sixteen bytes of entropy; and [add] prints the status line and
    the body of the answer. *)
Theorem add_sends_what_decrypts (user password name value : bytes) (type : Z)
    (w : World) :
  let self := keys_of password in
  let w1 := (challenge_signed password w).1 in
  ∃ sealed_value w',
    let rq := add_request user password type name sealed_value w in
    let response := server w1 (requests w1) rq in
    add user password type name value w = (w', Ok tt)
    ∧ requests w' = requests w1 ++ [rq]
    ∧ urlsafe_b64decode sealed_value
      = Some (drawn_iv w1 ++ sealed self (drawn_iv w1) value)
    ∧ (∀ w2, (decrypt self sealed_value w2).2 = Ok value)
    ∧ stdout w' = stdout w1 ++ [status_line response; body response]
    ∧ entropy_pos w' = (entropy_pos w1 + 16)%nat.
Proof.
  intros self w1.
  pose proof (crypt_key_ok password) as Hkey.
  exists (b64enc (drawn_iv w1 ++ sealed self (drawn_iv w1) value)).
  eexists. intros rq response. split.
  { unfold add.
    erewrite bind_ok by apply makeAuthParams_run.
    erewrite bind_ok by apply KeyDeriver_init_run.
    erewrite bind_ok by apply permute_run, crypt_key_ok.
    fold (buildLookupKey password type name).
    erewrite bind_ok by apply encrypt_run, crypt_key_ok.
    erewrite bind_ok by reflexivity.
    erewrite bind_ok by reflexivity.
    reflexivity. }
  split; [reflexivity|].
  split; [apply urlsafe_b64decode_encode|]. split.
  - intros w2.
    change (b64enc (drawn_iv w1 ++ sealed self (drawn_iv w1) value))
      with (envelope_of_raw self (drawn_iv w1) (padded value)).
    rewrite decrypt_envelope_of_raw
      by (done || apply length_drawn_iv || apply len_padded_mod).
    by rewrite strip_padding_padded.
  - split; [|reflexivity]. simpl. by rewrite <- app_assoc.
Qed.

Lemma argv_get_run (argv : list bytes) (i : nat) (a : bytes) (w : World) :
  argv !! i = Some a → argv_get argv i w = (w, Ok a).
Proof. intros Hi. unfold argv_get. by rewrite Hi. Qed.

Lemma argv_get_missing (argv : list bytes) (i : nat) (w : World) :
  argv !! i = None →
  argv_get argv i w = (w, Raise (IndexError "list index out of range")).
Proof. intros Hi. unfold argv_get. by rewrite Hi. Qed.

(** X14. Given a server, a port that reads as an integer and an action
    that is none of the five it knows, [main] raises [ValueError] naming the
    action, and has done nothing else: the world is as it was. *)
Theorem main_unrecognised_action (python_int : bytes → option Z)
    (argv : list bytes) (server_arg port_arg action : bytes) (port : Z)
    (w : World) :
  argv !! 1%nat = Some server_arg → argv !! 2%nat = Some port_arg →
  python_int port_arg = Some port → argv !! 3%nat = Some action →
  action ∉ [str "get"; str "add"; str "register"; str "authenticate";
            str "create-split"] →
  main python_int argv w
  = (w, Raise (ValueError ("Unrecognised action: "
                             +:+ string_of_list_ascii action))).
Proof.
  intros Hserver Hport Hint Haction Hnone. unfold main.
  erewrite bind_ok by (by apply argv_get_run).
  erewrite bind_ok by (by apply argv_get_run).
  rewrite Hint. erewrite bind_ok by reflexivity.
  erewrite bind_ok by (by apply argv_get_run).
  rewrite !bool_decide_eq_false_2; [done|..];
    intros ->; apply Hnone; set_solver.
Qed.


End CommandsFacts.

(** ** The claims on concrete inputs *)

(** Thirty-two bytes whose last sixteen are not the MAC of the (empty)
    rest are refused after the MAC alone was computed. *)
Lemma decrypt_verifies_then_decrypts_witness :
  let env := replicate 32 "x"%char in
  urlsafe_b64decode (Libs := small_libs) env = Some env
  ∧ 32 ≤ len env
  ∧ mac_part env ≠ hmac_md5 (mac hunter2) (ciphertext_part env)
  ∧ decrypt hunter2 env small_world
    = (log_calls [CallHMAC (mac hunter2) (ciphertext_part env)] small_world,
       Raise AuthenticationError).
Proof.
  intros env.
  assert (Hdec : urlsafe_b64decode (Libs := small_libs) env = Some env)
    by reflexivity.
  assert (Hlen : 32 ≤ len env) by (vm_compute; discriminate).
  assert (Hmac : mac_part env ≠ hmac_md5 (mac hunter2) (ciphertext_part env))
    by (vm_compute; discriminate).
  split; [exact Hdec|]. split; [exact Hlen|]. split; [exact Hmac|].
  exact (proj1 (decrypt_verifies_then_decrypts (L := small_libs)
                  (str "hunter2") env env small_world Hdec Hlen) Hmac).
Defined.

(** The envelope of ["hello"]: eleven bytes of padding, each an 11. *)
Lemma decrypt_padding_check_witness :
  let env := envelope_of_raw hunter2 zero_iv (padded (str "hello")) in
  let ct := ciphertext_part env in
  let plain := cbc_decrypt (length ct / 16) (crypt hunter2) (iv_part env) ct in
  let c := ascii_of_N 11 in
  urlsafe_b64decode (Libs := small_libs) env = Some env
  ∧ 32 ≤ len env
  ∧ mac_part env = hmac_md5 (mac hunter2) ct
  ∧ len ct `mod` 16 = 0
  ∧ last plain = Some c
  ∧ 1 ≤ ord c ≤ len plain
  ∧ (decrypt hunter2 env small_world).2 = Ok (str "hello").
Proof.
  intros env ct plain c.
  assert (Hdec : urlsafe_b64decode (Libs := small_libs) env = Some env)
    by reflexivity.
  assert (Hlen : 32 ≤ len env) by (vm_compute; discriminate).
  assert (Hmac : mac_part env = hmac_md5 (mac hunter2) ct) by reflexivity.
  assert (Hmod : len ct `mod` 16 = 0) by reflexivity.
  assert (Hlast : last plain = Some c) by reflexivity.
  assert (Hc : 1 ≤ ord c ≤ len plain) by (vm_compute; split; discriminate).
  assert (Hall : ∀ k, 1 ≤ k ≤ ord c → from_end plain k = c).
  { intros k Hk. change (ord c) with 11 in Hk.
    assert (Hcases : k = 1 ∨ k = 2 ∨ k = 3 ∨ k = 4 ∨ k = 5 ∨ k = 6 ∨ k = 7
                     ∨ k = 8 ∨ k = 9 ∨ k = 10 ∨ k = 11) by lia.
    repeat destruct Hcases as [->|Hcases]; try subst k; reflexivity. }
  do 5 (split; [assumption|]). split; [exact Hc|].
  exact (proj2 (proj2 (decrypt_padding_check (L := small_libs)
                         (str "hunter2") env env c small_world
                         Hdec Hlen Hmac Hmod Hlast)) Hc Hall).
Defined.

(** C4 as stated fails: an envelope that passes the length check and the
    MAC check, and whose plaintext ends in seventeen bytes of value 17, is
    not refused with [PaddingError] although 17 is above 16; the seventeen
    bytes are stripped and the rest is returned. *)
Lemma decrypt_accepts_pad_above_16 :
  let c := ascii_of_N 17 in
  let raw := str "AAAAAAAAAAAAAAA" ++ replicate 17 c in
  let env := envelope_of_raw hunter2 zero_iv raw in
  let ct := ciphertext_part env in
  urlsafe_b64decode (Libs := small_libs) env = Some env
  ∧ 32 ≤ len env
  ∧ mac_part env = hmac_md5 (mac hunter2) ct
  ∧ cbc_decrypt (length ct / 16) (crypt hunter2) (iv_part env) ct = raw
  ∧ last raw = Some c ∧ ord c = 17
  ∧ (decrypt hunter2 env small_world).2 = Ok (str "AAAAAAAAAAAAAAA").
Proof.
  intros c raw env ct.
  split; [reflexivity|]. split; [vm_compute; discriminate|].
  repeat split; vm_compute; reflexivity.
Qed.

(** The padding loop starts at the last byte and stops one short of the
    [c]-th byte from the end: a plaintext ending in ["X"], 3, 3 is taken for
    three bytes of padding. *)
Lemma decrypt_skips_first_pad_byte :
  let c := ascii_of_N 3 in
  let raw := str "AAAAAAAAAAAAAX" ++ [c; c] in
  let env := envelope_of_raw hunter2 zero_iv raw in
  from_end raw 3 = "X"%char
  ∧ (decrypt hunter2 env small_world).2 = Ok (str "AAAAAAAAAAAAA").
Proof. split; vm_compute; reflexivity. Qed.

(** C6 as stated fails: the output of [permute] is not what [encrypt]
    gives with the all-zero IV.  For the empty plaintext it decodes to 32
    bytes, one block of ciphertext and the MAC, with no IV in front, while
    [encrypt] in a world whose entropy is all zero gives the sixteen zero
    bytes followed by those 32. *)
Lemma permute_output_has_no_iv :
  ∃ out_permute out_encrypt d,
    (permute hunter2 [] small_world).2 = Ok out_permute
    ∧ drawn_iv zero_entropy_world = zero_iv
    ∧ (encrypt hunter2 [] zero_entropy_world).2 = Ok out_encrypt
    ∧ out_permute ≠ out_encrypt
    ∧ urlsafe_b64decode (Libs := small_libs) out_permute = Some d
    ∧ length d = 32%nat
    ∧ urlsafe_b64decode (Libs := small_libs) out_encrypt = Some (zero_iv ++ d).
Proof.
  do 3 eexists.
  split; [vm_compute; reflexivity|]. split; [reflexivity|].
  split; [vm_compute; reflexivity|].
  split; [intros Heq; apply (f_equal length) in Heq; discriminate Heq|].
  split; [reflexivity|]. split; reflexivity.
Qed.

(** [permute] of the empty plaintext, against [encrypt] in the world whose
    entropy is all zero. *)
Lemma permute_zero_iv_sealing_witness :
  let ct := ciphertext hunter2 zero_iv [] in
  let tag := hmac_md5 (mac hunter2) ct in
  drawn_iv zero_entropy_world = zero_iv
  ∧ ∃ out2,
      (encrypt hunter2 [] zero_entropy_world).2 = Ok out2
      ∧ urlsafe_b64decode (Libs := small_libs) out2
        = Some (zero_iv ++ ct ++ tag).
Proof.
  intros ct tag.
  assert (Hzero : drawn_iv zero_entropy_world = zero_iv) by reflexivity.
  split; [exact Hzero|].
  destruct (permute_zero_iv_sealing (L := small_libs) (str "hunter2") []
              small_world) as (out & _ & _ & _ & _ & _ & Hencrypt & _).
  exact (Hencrypt zero_entropy_world Hzero).
Defined.

(** The keys of [(1, "foo")], [(1, "bar")] and [(2, "foo")] under one
    password. *)
Lemma lookup_key_construction_and_stability_witness :
  0 ≤ 1 < 256 ^ Z.of_nat (int2bin_width (Libs := small_libs))
  ∧ 0 ≤ 2 < 256 ^ Z.of_nat (int2bin_width (Libs := small_libs))
  ∧ (1, str "bar") ≠ (1, str "foo")
  ∧ (2, str "foo") ≠ (1, str "foo")
  ∧ buildLookupKey (L := small_libs) (str "hunter2") 1 (str "bar")
    ≠ buildLookupKey (str "hunter2") 1 (str "foo")
  ∧ buildLookupKey (L := small_libs) (str "hunter2") 2 (str "foo")
    ≠ buildLookupKey (str "hunter2") 1 (str "foo").
Proof.
  assert (H1 : 0 ≤ 1 < 256 ^ Z.of_nat (int2bin_width (Libs := small_libs)))
    by (vm_compute; split; [discriminate | reflexivity]).
  assert (H2 : 0 ≤ 2 < 256 ^ Z.of_nat (int2bin_width (Libs := small_libs)))
    by (vm_compute; split; [discriminate | reflexivity]).
  assert (Hbar : (1, str "bar") ≠ (1, str "foo"))
    by (intros Heq; vm_compute in Heq; discriminate Heq).
  assert (Hfoo : (2, str "foo") ≠ (1, str "foo"))
    by (intros Heq; discriminate Heq).
  destruct (lookup_key_construction_and_stability (L := small_libs)
              (str "alice") (str "hunter2") (str "foo") (str "v") 1
              small_world) as (_ & _ & _ & Hdiffer).
  do 4 (split; [assumption|]).
  split; [exact (Hdiffer 1 (str "bar") H1 H1 Hbar)
         | exact (Hdiffer 2 (str "foo") H1 H2 Hfoo)].
Defined.


(** Sixteen zero bytes followed by the MAC of the empty string. *)
Lemma decrypt_empty_ciphertext_witness :
  let env := zero_iv ++ small_hmac (mac hunter2) [] in
  urlsafe_b64decode (Libs := small_libs) env = Some env
  ∧ len env = 32
  ∧ mac_part env = hmac_md5 (mac hunter2) []
  ∧ ciphertext_part env = []
  ∧ (decrypt hunter2 env small_world).2
    = Raise (IndexError "string index out of range").
Proof.
  intros env.
  assert (Hdec : urlsafe_b64decode (Libs := small_libs) env = Some env)
    by reflexivity.
  assert (Hlen : len env = 32) by reflexivity.
  assert (Hmac : mac_part env = hmac_md5 (mac hunter2) []) by reflexivity.
  split; [exact Hdec|]. split; [exact Hlen|]. split; [exact Hmac|].
  destruct (decrypt_empty_ciphertext (L := small_libs)
              (str "hunter2") env env small_world Hdec Hlen Hmac)
    as (Hct & w' & e & Hrun & -> & _).
  split; [exact Hct|]. unfold hunter2. by rewrite Hrun.
Defined.

(** The empty plaintext and a plaintext of exactly one block come back. *)
Lemma decrypt_encrypt_round_trip_witness :
  let round_trip (plain : bytes) : M bytes :=
    keys ← KeyDeriver_init (L := small_libs) (str "hunter2");
    env ← encrypt keys plain;
    decrypt keys env in
  (∃ w', round_trip [] small_world = (w', Ok []))
  ∧ (∃ w', round_trip (str "sixteen byte msg") small_world
           = (w', Ok (str "sixteen byte msg"))).
Proof.
  split.
  - exact (decrypt_encrypt_round_trip (L := small_libs) (str "hunter2") []
             small_world).
  - exact (decrypt_encrypt_round_trip (L := small_libs) (str "hunter2")
             (str "sixteen byte msg") small_world).
Defined.

(** A plaintext of exactly one block gets a whole block of padding. *)
Lemma encrypt_envelope_layout_witness :
  ∃ env iv ct tag pad w',
    encrypt hunter2 (str "sixteen byte msg") small_world = (w', Ok env)
    ∧ urlsafe_b64decode (Libs := small_libs) env = Some (iv ++ ct ++ tag)
    ∧ iv = str "ABCDEFGHIJKLMNOP" ∧ length tag = 16%nat
    ∧ pad = 16 ∧ len ct = 32.
Proof.
  destruct (encrypt_envelope_layout (L := small_libs) (str "hunter2")
              (str "sixteen byte msg") small_world)
    as (env & iv & ct & tag & pad & w' & Hrun & Hdec & Hiv & _ & Htag
        & Hpad & _ & _ & Hct & _).
  exists env, iv, ct, tag, pad, w'.
  split; [exact Hrun|]. split; [exact Hdec|].
  split; [by rewrite Hiv|]. split; [exact Htag|].
  split; [by rewrite Hpad|]. by rewrite Hct, Hpad.
Defined.

(** Thirty-one bytes are too short, thirty-two are not. *)
Lemma decrypt_FormatError_iff_short_witness :
  (decrypt hunter2 (replicate 31 "x"%char) small_world).2 = Raise FormatError
  ∧ (decrypt hunter2 (replicate 31 "x"%char) small_world).1 = small_world
  ∧ (decrypt hunter2 (replicate 32 "x"%char) small_world).2
    ≠ Raise FormatError.
Proof.
  pose proof (decrypt_FormatError_iff_short (L := small_libs) (str "hunter2")
                (replicate 31 "x"%char) small_world) as [Hiff Hworld].
  pose proof (decrypt_FormatError_iff_short (L := small_libs) (str "hunter2")
                (replicate 32 "x"%char) small_world) as [Hiff' _].
  assert (Hfail : (decrypt hunter2 (replicate 31 "x"%char) small_world).2
                  = Raise FormatError).
  { apply Hiff. exists (replicate 31 "x"%char).
    split; [reflexivity | by vm_compute]. }
  split; [exact Hfail|]. split; [exact (Hworld Hfail)|].
  intros Hfail'. apply Hiff' in Hfail' as (d & Hdec & Hlen).
  injection Hdec as <-. by vm_compute in Hlen.
Defined.

(** The keys of one password, in two worlds. *)
Lemma KeyDeriver_init_chain_witness :
  ∃ self,
    (KeyDeriver_init (L := small_libs) (str "hunter2") small_world).2 = Ok self
    ∧ (KeyDeriver_init (str "hunter2") zero_entropy_world).2 = Ok self
    ∧ mac self = small_sha256 (crypt self)
    ∧ authenticate self = small_sha256 (mac self).
Proof.
  destruct (KeyDeriver_init_chain (L := small_libs) (str "hunter2")
              small_world)
    as (self & w' & Hrun & _ & Hmac & Hauth & _ & _ & _ & Hsame).
  exists self. split; [by rewrite Hrun|]. split; [apply Hsame|].
  by split.
Defined.

(** At 1234567890.5 seconds, with the random bytes 3, 10, 17. *)
Lemma makeAuthParams_challenge_witness :
  ∃ w' params,
    makeAuthParams (L := small_libs) (str "alice") (str "hunter2") small_world
    = (w', Ok params)
    ∧ params !! "user" = Some (str "alice")
    ∧ params !! "t" = Some (str "1234567890:12449")
    ∧ 0 ≤ 12449 < 2 ^ 20.
Proof.
  destruct (makeAuthParams_challenge (L := small_libs) (str "alice")
              (str "hunter2") small_world) as (Hr & _ & _ & Hrun).
  do 2 eexists. split; [exact Hrun|].
  split; [reflexivity|]. split; [by vm_compute | exact Hr].
Defined.

(** ** The further properties on concrete inputs *)

(** A plaintext that ends in ["X"], 3, 3: the places 1 and 2 from the end
    hold 3, the third does not, and the last three bytes are stripped. *)
Lemma decrypt_accepts_iff_witness :
  let c := ascii_of_N 3 in
  let raw := str "AAAAAAAAAAAAAX" ++ [c; c] in
  let env := envelope_of_raw hunter2 zero_iv raw in
  let ct := ciphertext_part env in
  let plain := cbc_decrypt (length ct / 16) (crypt hunter2) (iv_part env) ct in
  urlsafe_b64decode (Libs := small_libs) env = Some env
  ∧ 32 ≤ len env
  ∧ mac_part env = hmac_md5 (mac hunter2) ct
  ∧ len ct `mod` 16 = 0
  ∧ last plain = Some c
  ∧ from_end plain 3 ≠ c
  ∧ (decrypt hunter2 env small_world).2 = Ok (str "AAAAAAAAAAAAA").
Proof.
  intros c raw env ct plain.
  assert (Hdec : urlsafe_b64decode (Libs := small_libs) env = Some env)
    by reflexivity.
  assert (Hlen : 32 ≤ len env) by (vm_compute; discriminate).
  assert (Hmac : mac_part env = hmac_md5 (mac hunter2) ct) by reflexivity.
  assert (Hmod : len ct `mod` 16 = 0) by reflexivity.
  assert (Hlast : last plain = Some c) by reflexivity.
  assert (Hthird : from_end plain 3 ≠ c) by (vm_compute; discriminate).
  do 5 (split; [assumption|]). split; [exact Hthird|].
  apply (decrypt_accepts_iff (L := small_libs) (str "hunter2") env env
           (str "AAAAAAAAAAAAA") c small_world Hdec Hlen Hmac Hmod Hlast).
  split; [|reflexivity].
  intros k Hk. change (ord c) with 3 in Hk.
  assert (Hcases : k = 1 ∨ k = 2) by lia.
  destruct Hcases as [->| ->]; split; first [reflexivity | by vm_compute].
Defined.

(** A block of fifteen bytes and a zero byte. *)
Lemma decrypt_zero_last_byte_witness :
  let raw := str "fifteen bytes.." ++ [zero] in
  let env := envelope_of_raw hunter2 zero_iv raw in
  let ct := ciphertext_part env in
  let plain := cbc_decrypt (length ct / 16) (crypt hunter2) (iv_part env) ct in
  urlsafe_b64decode (Libs := small_libs) env = Some env
  ∧ 32 ≤ len env
  ∧ mac_part env = hmac_md5 (mac hunter2) ct
  ∧ len ct `mod` 16 = 0
  ∧ last plain = Some zero
  ∧ (decrypt hunter2 env small_world).2 = Ok [].
Proof.
  intros raw env ct plain.
  assert (Hdec : urlsafe_b64decode (Libs := small_libs) env = Some env)
    by reflexivity.
  assert (Hlen : 32 ≤ len env) by (vm_compute; discriminate).
  assert (Hmac : mac_part env = hmac_md5 (mac hunter2) ct) by reflexivity.
  assert (Hmod : len ct `mod` 16 = 0) by reflexivity.
  assert (Hlast : last plain = Some zero) by reflexivity.
  do 5 (split; [assumption|]).
  exact (decrypt_zero_last_byte (L := small_libs) (str "hunter2") env env
           small_world Hdec Hlen Hmac Hmod Hlast).
Defined.

(** A block of sixteen bytes of value 200. *)
Lemma decrypt_IndexError_iff_witness :
  let c := ascii_of_N 200 in
  let raw := replicate 16 c in
  let env := envelope_of_raw hunter2 zero_iv raw in
  let ct := ciphertext_part env in
  let plain := cbc_decrypt (length ct / 16) (crypt hunter2) (iv_part env) ct in
  urlsafe_b64decode (Libs := small_libs) env = Some env
  ∧ 32 ≤ len env
  ∧ mac_part env = hmac_md5 (mac hunter2) ct
  ∧ len ct `mod` 16 = 0
  ∧ last plain = Some c ∧ len plain + 1 < ord c
  ∧ (decrypt hunter2 env small_world).2
    = Raise (IndexError "string index out of range").
Proof.
  intros c raw env ct plain.
  assert (Hdec : urlsafe_b64decode (Libs := small_libs) env = Some env)
    by reflexivity.
  assert (Hlen : 32 ≤ len env) by (vm_compute; discriminate).
  assert (Hmac : mac_part env = hmac_md5 (mac hunter2) ct) by reflexivity.
  assert (Hmod : len ct `mod` 16 = 0) by reflexivity.
  assert (Hlast : last plain = Some c) by reflexivity.
  assert (Hlong : len plain + 1 < ord c) by reflexivity.
  do 5 (split; [assumption|]). split; [exact Hlong|].
  apply (decrypt_IndexError_iff (L := small_libs) (str "hunter2") env env
           small_world Hdec Hlen Hmac Hmod).
  right. exists c. split; [exact Hlast|]. split; [exact Hlong|].
  intros k Hk. assert (Hk' : 1 ≤ k ≤ 16) by exact Hk.
  assert (Hcases : k = 1 ∨ k = 2 ∨ k = 3 ∨ k = 4 ∨ k = 5 ∨ k = 6 ∨ k = 7
                   ∨ k = 8 ∨ k = 9 ∨ k = 10 ∨ k = 11 ∨ k = 12 ∨ k = 13
                   ∨ k = 14 ∨ k = 15 ∨ k = 16) by lia.
  clear Hk Hk'.
  repeat destruct Hcases as [->|Hcases]; try subst k; reflexivity.
Defined.

(** A ciphertext part of five bytes, with its MAC. *)
Lemma decrypt_misaligned_ciphertext_witness :
  let env := zero_iv ++ str "short" ++ small_hmac (mac hunter2) (str "short") in
  let ct := ciphertext_part env in
  urlsafe_b64decode (Libs := small_libs) env = Some env
  ∧ 32 ≤ len env
  ∧ mac_part env = hmac_md5 (mac hunter2) ct
  ∧ len ct `mod` 16 ≠ 0
  ∧ ∃ e,
      decrypt hunter2 env small_world
      = (log_calls (decrypt_calls hunter2 (iv_part env) ct) small_world,
         Raise e)
      ∧ e = ValueError "Input strings must be a multiple of 16 in length"
      ∧ e ≠ FormatError ∧ e ≠ AuthenticationError ∧ e ≠ PaddingError.
Proof.
  intros env ct.
  assert (Hdec : urlsafe_b64decode (Libs := small_libs) env = Some env)
    by reflexivity.
  assert (Hlen : 32 ≤ len env) by (vm_compute; discriminate).
  assert (Hmac : mac_part env = hmac_md5 (mac hunter2) ct) by reflexivity.
  assert (Hmod : len ct `mod` 16 ≠ 0) by (vm_compute; discriminate).
  do 4 (split; [assumption|]).
  exact (decrypt_misaligned_ciphertext (L := small_libs) (str "hunter2")
           env env small_world Hdec Hlen Hmac Hmod).
Defined.

(** With sixteen spaces for an IV of zeros, the first sixteen letters
    change case. *)
Lemma decrypt_under_other_iv_witness :
  let plain := str "attack at dawn, all of you" in
  let spaces := replicate 16 " "%char in
  length zero_iv = 16%nat ∧ length spaces = 16%nat ∧ 16 ≤ len plain
  ∧ (decrypt hunter2 (b64enc (L := small_libs)
                        (spaces ++ sealed hunter2 zero_iv plain))
       small_world).2
    = Ok (strxor (strxor (take 16 plain) zero_iv) spaces ++ drop 16 plain)
  ∧ strxor (strxor (take 16 plain) zero_iv) spaces ++ drop 16 plain
    = str "ATTACK" ++ [zero] ++ str "AT" ++ [zero] ++ str "DAWN"
      ++ [ascii_of_N 12; zero] ++ str "all of you".
Proof.
  intros plain spaces.
  assert (Hiv : length zero_iv = 16%nat) by reflexivity.
  assert (Hiv' : length spaces = 16%nat) by reflexivity.
  assert (Hlong : 16 ≤ len plain) by (vm_compute; discriminate).
  do 3 (split; [assumption|]). split; [|reflexivity].
  exact (decrypt_under_other_iv (L := small_libs) (str "hunter2") plain
           zero_iv spaces small_world Hiv Hiv' Hlong).
Defined.

(** A server that answers 404. *)
Lemma getList_http_error_witness :
  let w1 := (challenge_signed (L := small_libs) (str "hunter2")
               refusing_world).1 in
  let rq := getList_request (L := small_libs) (str "alice") (str "hunter2") 1
              (str "foo") refusing_world in
  let response := server w1 (requests w1) rq in
  status response ≠ 200
  ∧ ∃ w',
      getList (L := small_libs) (str "alice") (str "hunter2") 1 (str "foo")
        refusing_world
      = (w', Raise (LookupError (str "HTTP error: " ++ fmt_d (status response)
                                   ++ str " " ++ reason response)))
      ∧ stdout w' = stdout w1
      ∧ requests w' = requests w1 ++ [rq]
      ∧ calls w' = calls w1 ++ lookup_calls (str "hunter2") 1 (str "foo").
Proof.
  intros w1 rq response.
  assert (Hstatus : status response ≠ 200) by discriminate.
  split; [exact Hstatus|].
  exact (getList_http_error (L := small_libs) (str "alice") (str "hunter2")
           (str "foo") 1 refusing_world Hstatus).
Defined.

(** Three records: one that decrypts to ["secret"], one whose value is too
    short, one more that would decrypt. *)
Lemma getList_lists_until_failure_witness :
  let env := envelope_of_raw hunter2 zero_iv (padded (str "secret")) in
  let good := [mkJsonRecord env 1 (Qmake 3 1)] in
  let rest := [mkJsonRecord (str "garbage") 2 (Qmake 4 1);
               mkJsonRecord env 3 (Qmake 5 1)] in
  let vals := λ _ : JsonRecord, str "secret" in
  let L := listing_libs (good ++ rest) in
  let self := keys_of (L := L) (str "hunter2") in
  let w1 := (challenge_signed (L := L) (str "hunter2") small_world).1 in
  let response :=
    server w1 (requests w1)
      (getList_request (L := L) (str "alice") (str "hunter2") 1 (str "foo")
         small_world) in
  status response = 200
  ∧ json_loads (Libs := L) (body response) = Some (good ++ rest)
  ∧ (∀ r, r ∈ good → (decrypt self (value r) small_world).2 = Ok (vals r))
  ∧ (∀ bad, head rest = Some bad →
       ∃ e, (decrypt self (value bad) small_world).2 = Raise e)
  ∧ stdout (getList (L := L) (str "alice") (str "hunter2") 1 (str "foo")
              small_world).1
    = stdout w1 ++ map (λ r, listing_line (L := L) r (vals r)) good
  ∧ (getList (L := L) (str "alice") (str "hunter2") 1 (str "foo")
       small_world).2
    = match rest with
      | [] => Ok tt
      | bad :: _ =>
          match (decrypt self (value bad) small_world).2 with
          | Raise e => Raise e
          | Ok _ => Ok tt
          end
      end.
Proof.
  intros env good rest vals L self w1 response.
  assert (Hstatus : status response = 200) by reflexivity.
  assert (Hjson : json_loads (Libs := L) (body response) = Some (good ++ rest))
    by reflexivity.
  assert (Hgood : ∀ r, r ∈ good →
            (decrypt self (value r) small_world).2 = Ok (vals r)).
  { intros r Hr. apply list_elem_of_singleton in Hr as ->.
    vm_compute. reflexivity. }
  assert (Hbad : ∀ bad, head rest = Some bad →
            ∃ e, (decrypt self (value bad) small_world).2 = Raise e).
  { intros bad Hhead. injection Hhead as <-. eexists.
    vm_compute. reflexivity. }
  do 4 (split; [assumption|]).
  exact (getList_lists_until_failure (L := L) (str "alice") (str "hunter2")
           (str "foo") 1 good rest vals small_world Hstatus Hjson Hgood Hbad).
Defined.

(** An action that [main] does not know. *)
Lemma main_unrecognised_action_witness :
  let argv := [str "nigori-client.py"; str "localhost"; str "8080";
               str "delete"] in
  argv !! 1%nat = Some (str "localhost") ∧ argv !! 2%nat = Some (str "8080")
  ∧ small_int (str "8080") = Some 8080 ∧ argv !! 3%nat = Some (str "delete")
  ∧ (str "delete" ∉ [str "get"; str "add"; str "register";
                     str "authenticate"; str "create-split"])
  ∧ main (L := small_libs) small_int argv small_world
    = (small_world, Raise (ValueError "Unrecognised action: delete")).
Proof.
  intros argv.
  assert (Hnone : str "delete" ∉ [str "get"; str "add"; str "register";
                                  str "authenticate"; str "create-split"]).
  { intros Hin. repeat (apply elem_of_cons in Hin as [Heq|Hin];
                        [by vm_compute in Heq|]).
    by apply elem_of_nil in Hin. }
  do 4 (split; [reflexivity|]). split; [exact Hnone|].
  exact (main_unrecognised_action (L := small_libs) small_int argv
           (str "localhost") (str "8080") (str "delete") 8080 small_world
           eq_refl eq_refl eq_refl eq_refl Hnone).
Defined.


(** Seven bytes are too short: nothing is called, and the failure is one of
    the six. *)
Lemma decrypt_outcomes_witness :
  (∃ cs, (decrypt hunter2 (str "garbage") small_world).1
         = log_calls cs small_world ∧ (length cs ≤ 3)%nat)
  ∧ (decrypt hunter2 (str "garbage") zero_entropy_world).2
    = (decrypt hunter2 (str "garbage") small_world).2
  ∧ (decrypt hunter2 (str "garbage") small_world).2 = Raise FormatError.
Proof.
  destruct (decrypt_outcomes (L := small_libs) (str "hunter2") (str "garbage")
              small_world) as (Hworld & Hsame & _).
  split; [exact Hworld|]. split; [exact (Hsame zero_entropy_world)|].
  reflexivity.
Defined.

(** In the small world the two stretches of entropy differ, and so do the
    two envelopes of ["hello"]. *)
Lemma encrypt_twice_witness :
  ∃ out1 out2 w',
    (out1 ← encrypt hunter2 (str "hello");
     out2 ← encrypt hunter2 (str "hello");
     mret (out1, out2)) small_world = (w', Ok (out1, out2))
    ∧ out1 ≠ out2
    ∧ (decrypt hunter2 out1 small_world).2 = Ok (str "hello")
    ∧ (decrypt hunter2 out2 small_world).2 = Ok (str "hello").
Proof.
  destruct (encrypt_twice (L := small_libs) (str "hunter2") (str "hello")
              small_world)
    as (out1 & out2 & w' & Hrun & _ & _ & _ & Hsame & Hback).
  exists out1, out2, w'. split; [exact Hrun|]. split.
  - intros Heq. apply Hsame in Heq. by vm_compute in Heq.
  - exact (Hback small_world).
Defined.

(** The names ["foo"] and ["bar"] have different outputs. *)
Lemma permute_injective_witness :
  (permute hunter2 (str "foo") small_world).2
  = (permute hunter2 (str "foo") zero_entropy_world).2
  ∧ (permute hunter2 (str "foo") small_world).2
    ≠ (permute hunter2 (str "bar") small_world).2.
Proof.
  split.
  - by apply (permute_injective (L := small_libs) (str "hunter2")).
  - intros Heq.
    apply (permute_injective (L := small_libs) (str "hunter2")) in Heq.
    by vm_compute in Heq.
Defined.

(** [authenticate] for alice, against the server that answers 200 to
    everything. *)
Lemma authenticate_sends_one_challenge_twice_witness :
  ∃ w' rq,
    authenticate_user (L := small_libs) (str "alice") (str "hunter2")
      small_world = (w', Ok tt)
    ∧ requests w' = [rq; rq]
    ∧ stdout w' = [str "200 OK"; str "[]"; str "Replaying: this should fail";
                   str "200 OK"; str "[]"]
    ∧ urandom_pos w' = 3%nat.
Proof.
  destruct (authenticate_sends_one_challenge_twice (L := small_libs)
              (str "alice") (str "hunter2") small_world)
    as (w' & Hrun & Hreq & Hout & _ & Hpos & _).
  exists w'. eexists. split; [exact Hrun|].
  split; [exact Hreq|]. split; [by rewrite Hout | by rewrite Hpos].
Defined.

(** [register] for alice. *)
Lemma register_publishes_challenge_key_witness :
  ∃ w',
    register (L := small_libs) (str "alice") (str "hunter2") small_world
    = (w', Ok tt)
    ∧ requests w' = [register_request (L := small_libs) (str "alice")
                       (str "hunter2")]
    ∧ stdout w' = [str "200 OK"; str "[]"]
    ∧ urandom_pos w' = 0%nat ∧ entropy_pos w' = 0%nat.
Proof.
  destruct (register_publishes_challenge_key (L := small_libs) (str "alice")
              (str "hunter2") small_world)
    as [(w' & Hrun & Hreq & _ & Hout & _ & Hu & He) _].
  exists w'. split; [exact Hrun|]. split; [exact Hreq|].
  split; [by rewrite Hout|]. by split.
Defined.

(** [add] of the value ["v"] under the name ["foo"]. *)
Lemma add_sends_what_decrypts_witness :
  ∃ sealed_value w',
    add (L := small_libs) (str "alice") (str "hunter2") 1 (str "foo")
      (str "v") small_world = (w', Ok tt)
    ∧ requests w'
      = [add_request (L := small_libs) (str "alice") (str "hunter2") 1
           (str "foo") sealed_value small_world]
    ∧ (decrypt hunter2 sealed_value small_world).2 = Ok (str "v")
    ∧ stdout w' = [str "200 OK"; str "[]"]
    ∧ entropy_pos w' = 16%nat.
Proof.
  destruct (add_sends_what_decrypts (L := small_libs) (str "alice")
              (str "hunter2") (str "foo") (str "v") 1 small_world)
    as (sealed_value & w' & Hrun & Hreq & _ & Hback & Hout & Hpos).
  exists sealed_value, w'. split; [exact Hrun|]. split; [exact Hreq|].
  split; [exact (Hback small_world)|]. split; [by rewrite Hout | exact Hpos].
Defined.
